(** * book_rag: the notebook [rag_langchain_book_pdf.ipynb] as a program

    The notebook is a straight sequence of cells that call third-party
    libraries (PyPDFLoader, RecursiveCharacterTextSplitter,
    HuggingFaceEmbeddings, Pinecone, Chroma, RetrievalQA, OllamaLLM).  The
    cells are embedded as computations in a state-and-exception monad over a
    [World] that holds what the cells can observe: the wall clock read by
    [time.time()], the two vector stores, and what was printed.  A Python
    exception ends the computation it occurs in and leaves the world as it
    was when it was raised.

    What the libraries compute (text extraction, splitting, embedding,
    nearest-neighbour ranking, answer generation, record ids) is not code of
    the repository.  It enters as a record of [Services]: every theorem is
    stated for an arbitrary such record. *)

From Stdlib Require Import ZArith.
From stdpp Require Import base option list strings pretty gmap fin_maps fin_sets.

(** ** Errors and results *)

(** Modelled from the spec: the error taxonomy of section 7.  The notebook
    defines no exception class of its own; these are the kinds under which
    the libraries' exceptions are classified.  [IndexError] is the Python
    built-in raised by [docs[0]] on an empty list. *)
Inductive Error : Type :=
| ConfigurationError
| AuthenticationError
| TransientNetworkError
| SchemaConflictError
| StorageError
| EmbeddingServiceError
| GenerationError
| NotFoundError
| IndexError.

Inductive result (A : Type) : Type :=
| Ok (a : A)
| Raise (e : Error).
Arguments Ok {A} a.
Arguments Raise {A} e.

Global Instance Error_eq_dec : EqDecision Error.
Proof. solve_decision. Defined.

(** ** Data model *)

Inductive Backend : Type := Pinecone | Chroma.

Global Instance Backend_eq_dec : EqDecision Backend.
Proof. solve_decision. Defined.

Inductive Metric : Type := Cosine | Euclidean | DotProduct.

Global Instance Metric_eq_dec : EqDecision Metric.
Proof. solve_decision. Defined.

(** A langchain [Document]: [page_content] plus the [source] and [page]
    entries of its metadata.  The chunks in [docs] are Documents too. *)
Record Document : Type := mkDocument {
  page_content : string;
  source : string;
  page : nat
}.

(** An embedding is a sequence of binary floats; each component is kept as
    its bit pattern.  Only the length is ever inspected here. *)
Definition Embedding : Type := list Z.

(** Modelled from the spec: section 3, Vector Record
    [(id, embedding, chunk_text, metadata)]; the id is the key under which
    the record is stored. *)
Record VectorRecord : Type := mkVectorRecord {
  embedding : Embedding;
  chunk_text : string;
  metadata : string * nat
}.

(** Modelled from the spec: section 3, Index/Collection: a named set of
    Vector Records whose dimension and metric are fixed at creation. *)
Record Collection : Type := mkCollection {
  dimension : nat;
  metric : Metric;
  records : gmap string VectorRecord
}.

(** The collections of one backend, by name. *)
Abbreviation Store := (gmap string Collection).

(** What a [print] call of the notebook writes.  Interpolated values are kept
    as values; the [:.2f] rounding of the latencies is not applied. *)
Inductive Output : Type :=
| Line (s : string)
| ChunkCount (n : nat)
| SampleChunk (s : string)
| EmbeddingDimension (n : nat)
| SampleEmbedding (e : Embedding)
| Populated (b : Backend) (name : string) (n : nat)
| QueryLine (q : string)
| ResponseTime (b : Backend) (t : Z)
| ResponseText (b : Backend) (answer : string)
| Deleted (b : Backend) (name : string).

Record World : Type := mkWorld {
  clock : Z;
  pinecone : Store;
  chroma_db : Store;
  stdout : list Output
}.

Definition store (b : Backend) (w : World) : Store :=
  match b with
  | Pinecone => pinecone w
  | Chroma => chroma_db w
  end.

Definition set_store (b : Backend) (st : Store) (w : World) : World :=
  match b with
  | Pinecone => mkWorld (clock w) st (chroma_db w) (stdout w)
  | Chroma => mkWorld (clock w) (pinecone w) st (stdout w)
  end.

Definition advance (d : Z) (w : World) : World :=
  mkWorld (clock w + d) (pinecone w) (chroma_db w) (stdout w).

Definition emit (o : Output) (w : World) : World :=
  mkWorld (clock w) (pinecone w) (chroma_db w) (stdout w ++ [o]).

(** ** The monad of cells *)

Definition M (A : Type) : Type := World → World * result A.

Global Instance M_ret : MRet M := λ A a w, (w, Ok a).

Global Instance M_bind : MBind M := λ A B k m w,
  match m w with
  | (w1, Ok a) => k a w1
  | (w1, Raise e) => (w1, Raise e)
  end.

Definition raise {A : Type} (e : Error) : M A := λ w, (w, Raise e).

Definition gets {A : Type} (f : World → A) : M A := λ w, (w, Ok (f w)).

Definition print (o : Output) : M unit := λ w, (emit o w, Ok tt).

(** [time.time()] *)
Definition time_time : M Z := gets clock.

(** An external computation started at a clock reading: how long it took and
    what it returned or raised. *)
Record Timed (A : Type) : Type := mkTimed {
  took : Z;
  outcome : result A
}.
Arguments mkTimed {A} took outcome.
Arguments took {A} t.
Arguments outcome {A} t.

Definition call {A : Type} (f : Z → Timed A) : M A :=
  λ w, let r := f (clock w) in (advance (took r) w, outcome r).

(** A [for] loop over a list. *)
Fixpoint for_each {A : Type} (l : list A) (body : A → M unit) : M unit :=
  match l with
  | [] => mret tt
  | x :: l' => body x;; for_each l' body
  end.

(** [[f(x) for x in l]] where [f] has effects. *)
Fixpoint map_M {A B : Type} (f : A → M B) (l : list A) : M (list B) :=
  match l with
  | [] => mret []
  | x :: l' => y ← f x; ys ← map_M f l'; mret (y :: ys)
  end.

(** ** The libraries behind the notebook

    Each field stands for a library call whose code is not in the
    repository.  A call is given the clock reading at which it starts, so its
    result and duration may differ from one call to the next. *)
Record Services : Type := mkServices {
  (** [PyPDFLoader(path).load()] *)
  load : string → Z → Timed (list Document);
  (** [RecursiveCharacterTextSplitter(chunk_size, chunk_overlap)
      .split_documents(documents)] *)
  split_documents : Z → Z → list Document → Z → Timed (list Document);
  (** [HuggingFaceEmbeddings(model_name='all-MiniLM-L6-v2')] on one text *)
  embed : string → Z → Timed Embedding;
  (** the id a store's [from_documents] gives the record of the [i]-th chunk
      of a batch; the notebook passes no ids *)
  record_id : Backend → Z → nat → Document → string;
  (** nearest-neighbour search of a backend in the collection as it is at
      the time of the call; returns the passages, best first *)
  search : Backend → option Collection → Embedding → nat → Z → Timed (list string);
  (** [OllamaLLM(model='llama3')] behind a "stuff" chain: query and passages
      in, answer out *)
  answer : string → list string → Z → Timed string
}.

(** ** Collections

    The Vector Index contract of section 4.3 of the spec, common to both
    backends.  Faults of the network or of the disk during these operations
    are left out: an operation fails for the reasons of the contract only. *)

(** Modelled from the spec: [create_collection] of section 4.3 (the code
    behind [pinecone.create_index] and behind Chroma's creation on first use
    is in the libraries): a new name gets an empty collection with the given
    schema; an existing one is left alone if its schema matches and is a
    SchemaConflictError otherwise. *)
Definition create_collection (name : string) (d : nat) (m : Metric)
    (st : Store) : result Store :=
  match st !! name with
  | None => Ok (<[name := mkCollection d m ∅]> st)
  | Some c =>
      if bool_decide (dimension c = d ∧ metric c = m) then Ok st
      else Raise SchemaConflictError
  end.

(** Modelled from the spec: [upsert] of section 4.3 adds or replaces records
    by id; here on the records of one collection, in the order of the batch. *)
Definition put_records (recs : list (string * VectorRecord))
    (m : gmap string VectorRecord) : gmap string VectorRecord :=
  foldl (λ acc ir, <[ir.1 := ir.2]> acc) m recs.

(** Modelled from the spec: [upsert] of section 4.3 (the stores' upsert code
    is in the libraries).  A record whose embedding has not the collection's
    dimension is a schema conflict (section 9); a missing collection is
    reported as not found. *)
Definition upsert (name : string) (recs : list (string * VectorRecord))
    (st : Store) : result Store :=
  match st !! name with
  | None => Raise NotFoundError
  | Some c =>
      if forallb (λ ir, bool_decide (length (embedding ir.2) = dimension c)) recs
      then Ok (<[name := mkCollection (dimension c) (metric c)
                          (put_records recs (records c))]> st)
      else Raise SchemaConflictError
  end.

(** Modelled from the spec: [delete_collection] of section 4.3 (the code
    behind [pinecone.delete_index] and [chroma_client.delete_collection] is
    in the libraries): removes the collection with its records, and fails
    with NotFoundError if there is none of that name. *)
Definition delete_collection (name : string) (st : Store) : result Store :=
  match st !! name with
  | None => Raise NotFoundError
  | Some _ => Ok (delete name st)
  end.

(** Run a collection operation against one backend. *)
Definition on_store (b : Backend) (f : Store → result Store) : M unit :=
  λ w, match f (store b w) with
       | Ok st => (set_store b st w, Ok tt)
       | Raise e => (w, Raise e)
       end.

(** [pinecone.list_indexes()] *)
Definition list_indexes : M (gset string) := gets (λ w, dom (pinecone w)).

(** The records of the collection [name] of a backend; none when there is no
    such collection. *)
Definition records_of (b : Backend) (name : string) (w : World)
    : gmap string VectorRecord :=
  match store b w !! name with
  | Some c => records c
  | None => ∅
  end.

(** The passages a backend holds under [name]. *)
Definition passages (b : Backend) (name : string) (w : World) : gset string :=
  map_img (chunk_text <$> records_of b name w).

(** ** The cells of the notebook *)

Definition index_name : string := "book-rag".

Definition queries : list string :=
  [ "What is the main topic of the book?";
    "Summarize the key points from the first chapter.";
    "What are some examples mentioned in the book?" ].

Section Notebook.
Context (svc : Services).

(** Step 1: load the PDF and split it into chunks. *)
Definition load_and_split : M (list Document) :=
  documents ← call (load svc "book.pdf");
  docs ← call (split_documents svc 1000 100 documents);
  print (ChunkCount (length docs));;
  print (Line "Sample chunk:");;
  match docs with
  | [] => raise IndexError
  | d :: _ => print (SampleChunk (String.substring 0 200 (page_content d) +:+ "..."))
  end;;
  mret docs.

(** Step 2: embed one test sentence. *)
Definition test_embedding : M unit :=
  sample_embedding ← call (embed svc "This is a test sentence from the book.");
  print (EmbeddingDimension (length sample_embedding));;
  print (SampleEmbedding (take 5 sample_embedding)).

(** [embeddings.embed_documents(texts)] *)
Definition embed_documents (texts : list string) : M (list Embedding) :=
  map_M (λ t, call (embed svc t)) texts.

Definition build_records (b : Backend) (t : Z) (docs : list Document)
    (es : list Embedding) : list (string * VectorRecord) :=
  imap (λ i de,
          (record_id svc b t i de.1,
           mkVectorRecord de.2 (page_content de.1) (source de.1, page de.1)))
       (zip docs es).

(** Modelled from the spec: [from_documents] of a langchain vector store
    is library code; section 4.6 step 1 gives it as embed the batch, build
    the Vector Records, upsert them. *)
Definition from_documents (b : Backend) (docs : list Document)
    (name : string) : M unit :=
  es ← embed_documents (page_content <$> docs);
  t ← time_time;
  on_store b (upsert name (build_records b t docs es)).

(** Step 3, first statement: the index is created unless its name is
    already listed. *)
Definition create_pinecone_index : M unit :=
  names ← list_indexes;
  if negb (bool_decide (index_name ∈ names))
  then on_store Pinecone (create_collection index_name 384 Cosine)
  else mret tt.

(** Step 3.  [pinecone.Index(index_name)] only makes a handle. *)
Definition store_pinecone (docs : list Document) : M unit :=
  create_pinecone_index;;
  from_documents Pinecone docs index_name;;
  print (Populated Pinecone index_name (length docs)).

(** Modelled from the spec: behind [Chroma.from_documents] the local
    collection is created on first use (section 3), with the schema of
    section 6; that code is in the library.  The rest is Step 4 of the
    notebook. *)
Definition store_chroma (docs : list Document) : M unit :=
  on_store Chroma (create_collection "book-rag" 384 Cosine);;
  from_documents Chroma docs "book-rag";;
  print (Populated Chroma "book-rag" (length docs)).

(** Step 5 builds the two chains; no service is called. *)
Definition setup_pipelines : M unit :=
  print (Line "RAG pipelines initialized for Pinecone and ChromaDB.").

(** Modelled from the spec: the Retriever of section 4.4: embed the query,
    then ask the bound index for the [k] nearest records. *)
Definition retrieve (b : Backend) (q : string) (k : nat) : M (list string) :=
  e ← call (embed svc q);
  c ← gets (λ w, store b w !! "book-rag");
  call (search svc b c e k).

(** Modelled from the spec: [RetrievalQA.run] is library code; section 4.6
    step 2 gives it as retrieve, then synthesize the answer from the
    passages.  The notebook builds both chains from the same [llm] with
    [chain_type='stuff'] and a retriever with [k = 3], and describes them
    as answering queries by retrieving the top-3 relevant chunks. *)
Definition qa_run (b : Backend) (q : string) : M string :=
  ps ← retrieve b q 3;
  call (answer svc q ps).

(** Step 6: the body of the loop over the queries. *)
Definition compare_query (query : string) : M unit :=
  print (QueryLine query);;
  start_time ← time_time;
  pinecone_result ← qa_run Pinecone query;
  now ← time_time;
  let pinecone_time := (now - start_time)%Z in
  print (ResponseTime Pinecone pinecone_time);;
  print (ResponseText Pinecone pinecone_result);;
  start_time ← time_time;
  chroma_result ← qa_run Chroma query;
  now ← time_time;
  let chroma_time := (now - start_time)%Z in
  print (ResponseTime Chroma chroma_time);;
  print (ResponseText Chroma chroma_result).

Definition compare (qs : list string) : M unit := for_each qs compare_query.

(** Cleanup cell, [# Cleanup Pinecone]. *)
Definition cleanup_pinecone : M unit :=
  names ← list_indexes;
  if bool_decide (index_name ∈ names)
  then on_store Pinecone (delete_collection index_name);;
       print (Deleted Pinecone index_name)
  else mret tt.

(** Cleanup cell, [# Cleanup ChromaDB]. *)
Definition cleanup_chroma : M unit :=
  on_store Chroma (delete_collection "book-rag");;
  print (Deleted Chroma "book-rag").

Definition cleanup : M unit := cleanup_pinecone;; cleanup_chroma.

(** Steps 1 to 4. *)
Definition ingest : M (list Document) :=
  docs ← load_and_split;
  test_embedding;;
  store_pinecone docs;;
  store_chroma docs;;
  mret docs.

(** All cells in order. *)
Definition notebook : M unit :=
  ingest;;
  setup_pipelines;;
  compare queries;;
  cleanup.

End Notebook.

(** ** Concrete services and worlds, for evaluation *)

Definition zero_vector : Embedding := replicate 384 0%Z.

(** Services that always succeed: one page, split into two chunks. *)
Definition steady : Services := {|
  load := λ _ _, mkTimed 5 (Ok [mkDocument "alpha beta" "book.pdf" 0]);
  split_documents := λ _ _ _ _,
    mkTimed 1 (Ok [mkDocument "alpha" "book.pdf" 0; mkDocument "beta" "book.pdf" 0]);
  embed := λ _ _, mkTimed 2 (Ok zero_vector);
  record_id := λ _ _ i _, pretty i;
  search := λ _ _ _ _ _, mkTimed 3 (Ok ["alpha"; "beta"]);
  answer := λ _ _ _, mkTimed 40 (Ok "It is about alpha and beta.")
|}.

(** The same, except that the managed-cloud search loses its connection. *)
Definition cloud_down : Services := {|
  load := load steady;
  split_documents := split_documents steady;
  embed := embed steady;
  record_id := record_id steady;
  search := λ b c e k t,
    match b with
    | Pinecone => mkTimed 7 (Raise TransientNetworkError)
    | Chroma => search steady b c e k t
    end;
  answer := answer steady
|}.

(** The same as [steady], except that the local disk fails from clock
    reading 100 on. *)
Definition local_down : Services := {|
  load := load steady;
  split_documents := split_documents steady;
  embed := embed steady;
  record_id := record_id steady;
  search := λ b c e k t,
    match b with
    | Pinecone => search steady b c e k t
    | Chroma =>
        if (t <? 100)%Z then search steady b c e k t
        else mkTimed 1 (Raise StorageError)
    end;
  answer := answer steady
|}.

(** The same as [steady], except that no text can be taken from the PDF: the
    splitter returns no chunk. *)
Definition no_text : Services := {|
  load := λ _ _, mkTimed 5 (Ok []);
  split_documents := λ _ _ _ _, mkTimed 1 (Ok []);
  embed := embed steady;
  record_id := record_id steady;
  search := search steady;
  answer := answer steady
|}.


(** Other work lives next to the notebook's: an index and a collection
    under another name. *)
Definition shared_stores : World :=
  mkWorld 0
    {[ "other" := mkCollection 768 Euclidean ∅ ]}
    {[ "notes" := mkCollection 384 Cosine ∅ ]} [].

(** Nothing exists yet: no index, no collection, nothing printed. *)
Definition blank : World := mkWorld 0 ∅ ∅ [].

(** An index named [book-rag] is left over from other work, with another
    schema. *)
Definition foreign_index : World :=
  mkWorld 0 {[ index_name := mkCollection 768 Euclidean ∅ ]} ∅ [].

(** An index named [book-rag] already holds a record; the local store is
    new. *)
Definition stale_index : World :=
  mkWorld 0
    {[ index_name :=
         mkCollection 384 Cosine
           {[ "old" := mkVectorRecord zero_vector "gamma" ("other.pdf", 0) ]} ]}
    ∅ [].

(** ** Notions used in the statements *)

(** The three service calls of one successful chain run started in [w0],
    with the time each took. *)
Definition chain_steps (svc : Services) (b : Backend) (q : string) (w0 : World)
    (d_embed d_search d_answer : Z) (a : string) : Prop :=
  ∃ e ps,
    embed svc q (clock w0) = mkTimed d_embed (Ok e)
    ∧ search svc b (store b w0 !! "book-rag") e 3 (clock w0 + d_embed)
      = mkTimed d_search (Ok ps)
    ∧ answer svc q ps (clock w0 + d_embed + d_search) = mkTimed d_answer (Ok a).

(** The world in which an iteration starts its local chain, after the
    managed-cloud chain returned [a] in [w1]. *)
Definition after_pinecone (start_time : Z) (a : string) (w1 : World) : World :=
  emit (ResponseText Pinecone a)
    (emit (ResponseTime Pinecone (clock w1 - start_time)) w1).

(** Both stores are as they were. *)
Definition same_stores (w w1 : World) : Prop :=
  pinecone w1 = pinecone w ∧ chroma_db w1 = chroma_db w.

(** The store gives the records of one batch ids that differ from each
    other. *)
Definition ids_distinct (svc : Services) : Prop :=
  ∀ b t i j d d', i ≠ j → record_id svc b t i d ≠ record_id svc b t j d'.

(** Only the collection [name] of backend [b] may differ between [w] and
    [w1]. *)
Definition only_touches (b : Backend) (name : string) (w w1 : World) : Prop :=
  (∀ b', b' ≠ b → store b' w1 = store b' w)
  ∧ (∀ n, n ≠ name → store b w1 !! n = store b w !! n).

(** The queries announced in a piece of output, in order. *)
Definition asked (out : list Output) : list string :=
  omap (λ o, match o with QueryLine q => Some q | _ => None end) out.

(** What a completed iteration of the comparison loop prints for [q]. *)
Definition answered_block (q : string) (blk : list Output) : Prop :=
  ∃ tp ap tc ac,
    blk = [ QueryLine q;
            ResponseTime Pinecone tp; ResponseText Pinecone ap;
            ResponseTime Chroma tc; ResponseText Chroma ac ].

(** No call of a chain run takes negative time. *)
Definition nonneg_durations (svc : Services) : Prop :=
  (∀ s t, (0 ≤ took (embed svc s t))%Z)
  ∧ (∀ b c e k t, (0 ≤ took (search svc b c e k t))%Z)
  ∧ (∀ q ps t, (0 ≤ took (answer svc q ps t))%Z).

(** ** Running the notebook *)

(** The whole notebook on [steady] services, from nothing: every cell
    returns, and this is what is printed. *)
Example notebook_steady :
  notebook steady blank
  = (mkWorld 286 ∅ ∅
       [ ChunkCount 2; Line "Sample chunk:"; SampleChunk "alpha...";
         EmbeddingDimension 384; SampleEmbedding [0; 0; 0; 0; 0]%Z;
         Populated Pinecone "book-rag" 2; Populated Chroma "book-rag" 2;
         Line "RAG pipelines initialized for Pinecone and ChromaDB.";
         QueryLine "What is the main topic of the book?";
         ResponseTime Pinecone 45;
         ResponseText Pinecone "It is about alpha and beta.";
         ResponseTime Chroma 45;
         ResponseText Chroma "It is about alpha and beta.";
         QueryLine "Summarize the key points from the first chapter.";
         ResponseTime Pinecone 45;
         ResponseText Pinecone "It is about alpha and beta.";
         ResponseTime Chroma 45;
         ResponseText Chroma "It is about alpha and beta.";
         QueryLine "What are some examples mentioned in the book?";
         ResponseTime Pinecone 45;
         ResponseText Pinecone "It is about alpha and beta.";
         ResponseTime Chroma 45;
         ResponseText Chroma "It is about alpha and beta.";
         Deleted Pinecone "book-rag"; Deleted Chroma "book-rag" ],
     Ok tt).
Proof. vm_compute. reflexivity. Qed.

(** A PDF without text gives no chunk, and Step 1 ends at [docs[0]]. *)
Example empty_book_raises :
  (load_and_split
     (mkServices (load steady) (λ _ _ _ _, mkTimed 1 (Ok []))
        (embed steady) (record_id steady) (search steady) (answer steady))
     blank).2
  = Raise IndexError.
Proof. reflexivity. Qed.

(** ** Reasoning about cells *)

Lemma bind_unfold {A B : Type} (m : M A) (k : A → M B) (w : World) :
  (m ≫= k) w =
    match m w with
    | (w1, Ok a) => k a w1
    | (w1, Raise e) => (w1, Raise e)
    end.
Proof. reflexivity. Qed.

Lemma bind_Ok {A B : Type} (m : M A) (k : A → M B) (w w1 : World) (a : A) :
  m w = (w1, Ok a) → (m ≫= k) w = k a w1.
Proof. intros H. rewrite bind_unfold, H. reflexivity. Qed.

Lemma bind_Raise {A B : Type} (m : M A) (k : A → M B) (w w1 : World) (e : Error) :
  m w = (w1, Raise e) → (m ≫= k) w = (w1, Raise e).
Proof. intros H. rewrite bind_unfold, H. reflexivity. Qed.

(** Run the binds at the head of a cell as far as they compute. *)
Ltac run_binds := repeat (rewrite bind_unfold; simpl).

Lemma for_each_app {A : Type} (body : A → M unit) (l1 l2 : list A) (w w1 : World) :
  for_each l1 body w = (w1, Ok tt) →
  for_each (l1 ++ l2) body w = for_each l2 body w1.
Proof.
  revert w. induction l1 as [|x l1 IH]; intros w H; simpl in *.
  - injection H as <-. reflexivity.
  - rewrite bind_unfold in *.
    destruct (body x w) as [w2 [[]|e]]; [|discriminate].
    apply IH, H.
Qed.

(** Membership of the guard, read off the store. *)
Lemma listed_iff (name : string) (w : World) :
  name ∈ dom (pinecone w) ↔ is_Some (pinecone w !! name).
Proof. apply elem_of_dom. Qed.

(** ** Creating the index (C5) *)

(** C5, corrected.  The index-creation step looks at the name only: when an
    index called [book-rag] is listed, whatever its dimension and metric, the
    step succeeds and changes nothing; when none is listed, the index is
    created empty with dimension 384 and the cosine metric. *)
Theorem create_pinecone_index_by_name (w : World) :
  create_pinecone_index w =
    match pinecone w !! index_name with
    | Some _ => (w, Ok tt)
    | None =>
        (set_store Pinecone
           (<[index_name := mkCollection 384 Cosine ∅]> (pinecone w)) w,
         Ok tt)
    end.
Proof.
  unfold create_pinecone_index, list_indexes, gets.
  rewrite bind_unfold.
  destruct (pinecone w !! index_name) as [c|] eqn:E.
  - rewrite bool_decide_eq_true_2; [reflexivity|].
    apply listed_iff. by exists c.
  - rewrite bool_decide_eq_false_2.
    + simpl. unfold on_store, create_collection. simpl. rewrite E. reflexivity.
    + rewrite listed_iff, E. by intros [? ?].
Qed.

(** C5 as stated fails: an index of that name exists with dimension 768 and
    the Euclidean metric, and the creation step returns normally, leaving it
    as it is, instead of failing with SchemaConflictError. *)
Lemma create_over_foreign_index_succeeds :
  (∃ c, pinecone foreign_index !! index_name = Some c
        ∧ dimension c ≠ 384 ∧ metric c ≠ Cosine)
  ∧ create_pinecone_index foreign_index = (foreign_index, Ok tt)
  ∧ (create_pinecone_index foreign_index).2 ≠ Raise SchemaConflictError.
Proof.
  split; [|split].
  - eexists. split; [reflexivity|]. split; [vm_compute; lia | discriminate].
  - reflexivity.
  - discriminate.
Qed.

(** ** Cleanup (C4) *)

(** The Pinecone half of the cleanup cell is guarded: it never raises, and
    afterwards no index [book-rag] is listed. *)
Lemma cleanup_pinecone_guarded (w : World) :
  ∃ w1, cleanup_pinecone w = (w1, Ok tt)
        ∧ chroma_db w1 = chroma_db w
        ∧ pinecone w1 !! index_name = None
        ∧ (∀ o, o ∈ drop (length (stdout w)) (stdout w1) →
                o = Deleted Pinecone index_name).
Proof.
  unfold cleanup_pinecone, list_indexes, gets. rewrite bind_unfold.
  destruct (pinecone w !! index_name) as [c|] eqn:E.
  - rewrite bool_decide_eq_true_2 by (apply listed_iff; by exists c).
    rewrite bind_unfold. unfold on_store, delete_collection. simpl. rewrite E.
    eexists. split; [reflexivity|]. split; [reflexivity|]. simpl. split.
    + apply lookup_delete_eq.
    + intros o. rewrite drop_app_length. by intros ?%list_elem_of_singleton.
  - rewrite bool_decide_eq_false_2 by (rewrite listed_iff, E; by intros [? ?]).
    exists w. repeat split; try done.
    intros o. rewrite drop_all. by intros ?%elem_of_nil.
Qed.

(** C4, on the code.  The Chroma half of the cleanup cell is not guarded:
    whenever the local store has no collection [book-rag], the cleanup cell
    ends in NotFoundError, and the line reporting the deletion is not
    printed. *)
Theorem cleanup_raises_without_collection (w : World) :
  chroma_db w !! "book-rag" = None →
  ∃ w1, cleanup w = (w1, Raise NotFoundError)
        ∧ Deleted Chroma "book-rag" ∉ drop (length (stdout w)) (stdout w1).
Proof.
  intros Hnone. unfold cleanup.
  destruct (cleanup_pinecone_guarded w) as (w1 & Hp & Hc & _ & Hout).
  exists w1. split.
  - rewrite bind_unfold, Hp. unfold cleanup_chroma. rewrite bind_unfold.
    unfold on_store, delete_collection. simpl. rewrite Hc, Hnone. reflexivity.
  - intros Hin. apply Hout in Hin. discriminate.
Qed.

(** Running the cleanup cell a second time: the first run deleted both
    collections, the second one raises. *)
Lemma cleanup_twice_raises :
  chroma_db (cleanup (ingest steady blank).1).1 !! "book-rag" = None
  ∧ ∃ w1, cleanup (cleanup (ingest steady blank).1).1 = (w1, Raise NotFoundError)
          ∧ Deleted Chroma "book-rag"
              ∉ drop (length (stdout (cleanup (ingest steady blank).1).1)) (stdout w1).
Proof.
  split; [vm_compute; reflexivity|].
  apply (cleanup_raises_without_collection (cleanup (ingest steady blank).1).1).
  vm_compute; reflexivity.
Defined.

(** ** The comparison loop (C2, C9) *)

Section Comparison.
Context (svc : Services).

(** A chain run prints nothing and leaves both stores alone. *)
Lemma qa_run_frame (b : Backend) (q : string) (w w1 : World) (r : result string) :
  qa_run svc b q w = (w1, r) →
  stdout w1 = stdout w ∧ pinecone w1 = pinecone w ∧ chroma_db w1 = chroma_db w.
Proof.
  unfold qa_run, retrieve, call, gets. rewrite !bind_unfold. simpl.
  destruct (outcome (embed svc q (clock w))) as [e|err]; simpl.
  - destruct b; simpl;
      destruct (outcome (search svc _ _ e 3 _)) as [ps|err]; simpl;
      intros [= <- _]; done.
  - intros [= <- _]; done.
Qed.

(** A chain run that returns has made its three calls, and the clock has
    moved by the time they took together. *)
Lemma qa_run_Ok (b : Backend) (q : string) (w w1 : World) (a : string) :
  qa_run svc b q w = (w1, Ok a) →
  ∃ d1 d2 d3,
    chain_steps svc b q w d1 d2 d3 a ∧ clock w1 = (clock w + (d1 + d2 + d3))%Z.
Proof.
  unfold qa_run, retrieve, call, gets, chain_steps.
  rewrite !bind_unfold. simpl.
  destruct (embed svc q (clock w)) as [d1 [e|err]] eqn:E1; simpl; [|discriminate].
  assert (store b (advance d1 w) = store b w) as -> by (by destruct b).
  destruct (search svc b (store b w !! "book-rag") e 3 (clock w + d1))
    as [d2 [ps|err]] eqn:E2; simpl; [|discriminate].
  destruct (answer svc q ps (clock w + d1 + d2)) as [d3 [a'|err]] eqn:E3;
    simpl; [|discriminate].
  intros [= <- <-]. exists d1, d2, d3. split; [|simpl; lia].
  exists e, ps. done.
Qed.

(** One iteration, when the managed-cloud chain raises. *)
Lemma compare_query_pinecone_raises (q : string) (w w1 : World) (e : Error) :
  qa_run svc Pinecone q (emit (QueryLine q) w) = (w1, Raise e) →
  compare_query svc q w = (w1, Raise e).
Proof.
  intros H. unfold compare_query, print, time_time, gets.
  run_binds. rewrite H. reflexivity.
Qed.

(** One iteration, when the managed-cloud chain returns and the local one
    raises. *)
Lemma compare_query_chroma_raises (q : string) (w w1 w2 : World) (a : string)
    (e : Error) :
  qa_run svc Pinecone q (emit (QueryLine q) w) = (w1, Ok a) →
  qa_run svc Chroma q (after_pinecone (clock w) a w1) = (w2, Raise e) →
  compare_query svc q w = (w2, Raise e).
Proof.
  intros H1 H2. unfold compare_query, print, time_time, gets.
  run_binds. rewrite H1. run_binds.
  unfold after_pinecone in H2. rewrite H2. reflexivity.
Qed.

(** One iteration, when both chains return. *)
Lemma compare_query_completes (q : string) (w w1 w2 : World) (a a' : string) :
  qa_run svc Pinecone q (emit (QueryLine q) w) = (w1, Ok a) →
  qa_run svc Chroma q (after_pinecone (clock w) a w1) = (w2, Ok a') →
  compare_query svc q w =
    (emit (ResponseText Chroma a')
       (emit (ResponseTime Chroma (clock w2 - clock w1)) w2), Ok tt).
Proof.
  intros H1 H2. unfold compare_query, print, time_time, gets.
  run_binds. rewrite H1. run_binds.
  unfold after_pinecone in H2. rewrite H2. reflexivity.
Qed.

(** What one iteration prints, and what its latencies measure. *)
Lemma compare_query_output (q : string) (w w1 : World) (r : result unit) :
  compare_query svc q w = (w1, r) →
  ∃ out,
    stdout w1 = stdout w ++ out
    ∧ ∀ b t, ResponseTime b t ∈ out →
        ∃ w0 d1 d2 d3 a,
          chain_steps svc b q w0 d1 d2 d3 a
          ∧ t = (d1 + d2 + d3)%Z
          ∧ ResponseText b a ∈ out.
Proof.
  intros Hrun.
  destruct (qa_run svc Pinecone q (emit (QueryLine q) w)) as [wp [a|e]] eqn:Hp.
  - destruct (qa_run_frame _ _ _ _ _ Hp) as (Hop & _ & _).
    destruct (qa_run_Ok _ _ _ _ _ Hp) as (d1 & d2 & d3 & Hsteps & Hclock).
    simpl in Hop, Hclock.
    destruct (qa_run svc Chroma q (after_pinecone (clock w) a wp))
      as [wc [a'|e]] eqn:Hc.
    + destruct (qa_run_frame _ _ _ _ _ Hc) as (Hoc & _ & _).
      destruct (qa_run_Ok _ _ _ _ _ Hc) as (c1 & c2 & c3 & Hsteps' & Hclock').
      simpl in Hoc, Hclock'.
      rewrite (compare_query_completes _ _ _ _ _ _ Hp Hc) in Hrun.
      injection Hrun as <- <-.
      exists [QueryLine q; ResponseTime Pinecone (clock wp - clock w);
              ResponseText Pinecone a;
              ResponseTime Chroma (clock wc - clock wp);
              ResponseText Chroma a'].
      split.
      * simpl. rewrite Hoc, Hop, <- !app_assoc. reflexivity.
      * intros b t Hin. set_unfold in Hin.
        destruct Hin as [Hin|[Hin|[Hin|[Hin|[Hin|[]]]]]]; try discriminate.
        -- injection Hin as -> ->.
           exists (emit (QueryLine q) w), d1, d2, d3, a.
           split; [done|]. split; [lia|]. set_solver.
        -- injection Hin as -> ->.
           exists (after_pinecone (clock w) a wp), c1, c2, c3, a'.
           split; [done|]. split; [lia|]. set_solver.
    + destruct (qa_run_frame _ _ _ _ _ Hc) as (Hoc & _ & _). simpl in Hoc.
      rewrite (compare_query_chroma_raises _ _ _ _ _ _ Hp Hc) in Hrun.
      injection Hrun as <- <-.
      exists [QueryLine q; ResponseTime Pinecone (clock wp - clock w);
              ResponseText Pinecone a].
      split.
      * rewrite Hoc, Hop, <- !app_assoc. reflexivity.
      * intros b t Hin. set_unfold in Hin.
        destruct Hin as [Hin|[Hin|[Hin|[]]]]; try discriminate.
        injection Hin as -> ->.
        exists (emit (QueryLine q) w), d1, d2, d3, a.
        split; [done|]. split; [lia|]. set_solver.
  - destruct (qa_run_frame _ _ _ _ _ Hp) as (Hop & _ & _). simpl in Hop.
    rewrite (compare_query_pinecone_raises _ _ _ _ Hp) in Hrun.
    injection Hrun as <- <-.
    exists [QueryLine q]. split; [done|].
    intros b t Hin. set_unfold in Hin. destruct Hin as [Hin|[]]. discriminate.
Qed.

(** The same for the whole loop. *)
Lemma compare_output (qs : list string) (w w' : World) (r : result unit) :
  compare svc qs w = (w', r) →
  ∃ out,
    stdout w' = stdout w ++ out
    ∧ ∀ b t, ResponseTime b t ∈ out →
        ∃ q w0 d1 d2 d3 a,
          q ∈ qs
          ∧ chain_steps svc b q w0 d1 d2 d3 a
          ∧ t = (d1 + d2 + d3)%Z
          ∧ ResponseText b a ∈ out.
Proof.
  unfold compare. revert w.
  induction qs as [|q qs IH]; intros w Hrun; simpl in Hrun.
  - injection Hrun as <- <-. exists []. split; [by rewrite app_nil_r|].
    by intros b t ?%elem_of_nil.
  - rewrite bind_unfold in Hrun.
    destruct (compare_query svc q w) as [w1 r1] eqn:Hq.
    destruct (compare_query_output _ _ _ _ Hq) as (out1 & Ho1 & Ht1).
    destruct r1 as [[]|e].
    + destruct (IH _ Hrun) as (out2 & Ho2 & Ht2).
      exists (out1 ++ out2). split.
      * by rewrite Ho2, Ho1, app_assoc.
      * intros b t [Hin|Hin]%elem_of_app.
        -- destruct (Ht1 _ _ Hin) as (w0 & d1 & d2 & d3 & a & ? & ? & ?).
           exists q, w0, d1, d2, d3, a. set_solver.
        -- destruct (Ht2 _ _ Hin) as (q' & w0 & d1 & d2 & d3 & a & ? & ? & ? & ?).
           exists q', w0, d1, d2, d3, a. set_solver.
    + injection Hrun as <- <-. exists out1. split; [done|].
      intros b t Hin.
      destruct (Ht1 _ _ Hin) as (w0 & d1 & d2 & d3 & a & ? & ? & ?).
      exists q, w0, d1, d2, d3, a. set_solver.
Qed.

End Comparison.

(** C2, corrected.  No error is caught in the comparison loop: a chain run
    that raises ends the whole run there.  When the managed-cloud chain
    raises on a query, that query's line is the last thing printed: the
    local result for it is not produced and no later query is run.  When the
    local chain raises, the managed-cloud latency and answer for the same
    query have been printed just before.  What earlier queries printed
    stays. *)
Theorem failure_ends_the_run (svc : Services) (qs1 : list string) (q : string)
    (qs2 : list string) (w w0 : World) :
  compare svc qs1 w = (w0, Ok tt) →
  (∀ w1 e,
     qa_run svc Pinecone q (emit (QueryLine q) w0) = (w1, Raise e) →
     compare svc (qs1 ++ q :: qs2) w = (w1, Raise e)
     ∧ stdout w1 = stdout w0 ++ [QueryLine q])
  ∧ (∀ w1 a w2 e,
       qa_run svc Pinecone q (emit (QueryLine q) w0) = (w1, Ok a) →
       qa_run svc Chroma q (after_pinecone (clock w0) a w1) = (w2, Raise e) →
       compare svc (qs1 ++ q :: qs2) w = (w2, Raise e)
       ∧ stdout w2 =
           stdout w0 ++ [QueryLine q;
                         ResponseTime Pinecone (clock w1 - clock w0);
                         ResponseText Pinecone a]).
Proof.
  intros Hdone. unfold compare in *. split.
  - intros w1 e Hp.
    rewrite (for_each_app _ _ _ _ _ Hdone). simpl. rewrite bind_unfold.
    rewrite (compare_query_pinecone_raises _ _ _ _ _ Hp). split; [done|].
    by destruct (qa_run_frame _ _ _ _ _ _ Hp) as (-> & _ & _).
  - intros w1 a w2 e Hp Hc.
    rewrite (for_each_app _ _ _ _ _ Hdone). simpl. rewrite bind_unfold.
    rewrite (compare_query_chroma_raises _ _ _ _ _ _ _ Hp Hc). split; [done|].
    destruct (qa_run_frame _ _ _ _ _ _ Hc) as (-> & _ & _).
    destruct (qa_run_frame _ _ _ _ _ _ Hp) as (Ho & _ & _).
    simpl. rewrite Ho. simpl. by rewrite <- !app_assoc.
Qed.

(** The local search fails on the second query of a run: the first query is
    answered by both backends, the second by the managed-cloud one only, the
    third is never asked. *)
Lemma local_failure_on_second_query :
  compare local_down (take 1 queries) blank
    = (mkWorld 90 ∅ ∅
         [ QueryLine "What is the main topic of the book?";
           ResponseTime Pinecone 45;
           ResponseText Pinecone "It is about alpha and beta.";
           ResponseTime Chroma 45;
           ResponseText Chroma "It is about alpha and beta." ],
       Ok tt)
  ∧ compare local_down queries blank
      = (mkWorld 138 ∅ ∅
           [ QueryLine "What is the main topic of the book?";
             ResponseTime Pinecone 45;
             ResponseText Pinecone "It is about alpha and beta.";
             ResponseTime Chroma 45;
             ResponseText Chroma "It is about alpha and beta.";
             QueryLine "Summarize the key points from the first chapter.";
             ResponseTime Pinecone 45;
             ResponseText Pinecone "It is about alpha and beta." ],
         Raise StorageError).
Proof.
  split; [vm_compute; reflexivity|].
  refine (proj1 (proj2 (failure_ends_the_run local_down (take 1 queries)
            "Summarize the key points from the first chapter." (drop 2 queries)
            blank _ _) (mkWorld 135 ∅ ∅ _) _ _ StorageError _ _));
    vm_compute; reflexivity.
Defined.

(** C2 as stated fails: the managed-cloud search raises on the first query;
    the local chain would have answered it, in any world; the run ends in
    that error with the query line as its only output: no local result for
    the query, and no later query. *)
Lemma cloud_failure_aborts_comparison :
  (∃ w1, qa_run cloud_down Pinecone "What is the main topic of the book?"
           (emit (QueryLine "What is the main topic of the book?") blank)
         = (w1, Raise TransientNetworkError))
  ∧ (∀ w, ∃ w1, qa_run cloud_down Chroma "What is the main topic of the book?" w
                = (w1, Ok "It is about alpha and beta."))
  ∧ compare cloud_down queries blank
    = (mkWorld 9 ∅ ∅ [QueryLine "What is the main topic of the book?"],
       Raise TransientNetworkError)
  ∧ ∀ a, ResponseText Chroma a ∉ stdout (compare cloud_down queries blank).1.
Proof.
  split; [|split; [|split]].
  - eexists. vm_compute. reflexivity.
  - intros w. eexists. reflexivity.
  - vm_compute. reflexivity.
  - intros a Hin. vm_compute in Hin. set_unfold in Hin.
    destruct Hin as [Hin|[]]. discriminate.
Qed.

(** C9.  Every latency the comparison loop prints for a backend is the time
    that backend's whole chain run took for one of the queries: embedding
    the query, searching the index and generating the answer, the three
    added up; the answer generated in that run is printed with it.  So each
    reported time contains one full generation, and exceeds the search time
    by the embedding and generation times. *)
Theorem latency_covers_whole_chain (svc : Services) (qs : list string)
    (w w' : World) (r : result unit) (out : list Output) (b : Backend) (t : Z) :
  compare svc qs w = (w', r) →
  stdout w' = stdout w ++ out →
  ResponseTime b t ∈ out →
  ∃ q w0 d_embed d_search d_answer a,
    q ∈ qs
    ∧ chain_steps svc b q w0 d_embed d_search d_answer a
    ∧ t = (d_embed + d_search + d_answer)%Z
    ∧ ResponseText b a ∈ out.
Proof.
  intros Hrun Hout Hin.
  destruct (compare_output svc qs w w' r Hrun) as (out' & Hout' & Hall).
  rewrite Hout' in Hout. apply app_inv_head in Hout. subst out'.
  by apply Hall.
Qed.

(** With [steady] services every chain run takes 2 + 3 + 40 ticks, and that
    is the latency printed. *)
Lemma latency_of_steady_run :
  let out := [ QueryLine "What is the main topic of the book?";
               ResponseTime Pinecone 45;
               ResponseText Pinecone "It is about alpha and beta.";
               ResponseTime Chroma 45;
               ResponseText Chroma "It is about alpha and beta." ] in
  compare steady (take 1 queries) blank = (mkWorld 90 ∅ ∅ out, Ok tt)
  ∧ ResponseTime Chroma 45 ∈ out
  ∧ ∃ q w0 d_embed d_search d_answer a,
      q ∈ take 1 queries
      ∧ chain_steps steady Chroma q w0 d_embed d_search d_answer a
      ∧ 45%Z = (d_embed + d_search + d_answer)%Z
      ∧ ResponseText Chroma a ∈ out.
Proof.
  intros out.
  assert (compare steady (take 1 queries) blank = (mkWorld 90 ∅ ∅ out, Ok tt))
    as Hrun by (vm_compute; reflexivity).
  assert (ResponseTime Chroma 45 ∈ out) as Hin
    by (do 3 apply elem_of_cons, or_intror; apply elem_of_cons; by left).
  split; [exact Hrun|]. split; [exact Hin|].
  exact (latency_covers_whole_chain steady (take 1 queries) blank
           (mkWorld 90 ∅ ∅ out) (Ok tt) out Chroma 45 Hrun eq_refl Hin).
Defined.

(** ** Ingestion (C10) *)

Lemma bind_inv_Ok {A B : Type} (m : M A) (k : A → M B) (w w' : World) (b : B) :
  (m ≫= k) w = (w', Ok b) → ∃ w1 a, m w = (w1, Ok a) ∧ k a w1 = (w', Ok b).
Proof.
  rewrite bind_unfold. destruct (m w) as [w1 [a|e]]; [eauto | discriminate].
Qed.

Lemma same_stores_refl (w : World) : same_stores w w.
Proof. done. Qed.

Lemma same_stores_trans (w w1 w2 : World) :
  same_stores w w1 → same_stores w1 w2 → same_stores w w2.
Proof. intros [? ?] [? ?]. split; congruence. Qed.

Lemma call_stores {A : Type} (f : Z → Timed A) (w w1 : World) (r : result A) :
  call f w = (w1, r) → same_stores w w1.
Proof. intros [= <- _]. done. Qed.

Lemma print_stores (o : Output) (w w1 : World) (r : result unit) :
  print o w = (w1, r) → same_stores w w1.
Proof. intros [= <- _]. done. Qed.

Lemma store_set_store (b : Backend) (st : Store) (w : World) :
  store b (set_store b st w) = st.
Proof. by destruct b. Qed.

Lemma store_set_store_ne (b b' : Backend) (st : Store) (w : World) :
  b' ≠ b → store b' (set_store b st w) = store b' w.
Proof. by destruct b, b'. Qed.

Lemma store_same_stores (b : Backend) (w w1 : World) :
  same_stores w w1 → store b w1 = store b w.
Proof. intros [? ?]. by destruct b. Qed.

(** Records put under ids that are distinct and not yet taken all stay: the
    passages grow by theirs, the count by their number. *)
Lemma put_records_fresh (recs : list (string * VectorRecord))
    (m : gmap string VectorRecord) :
  NoDup recs.*1 →
  (∀ i, i ∈ recs.*1 → m !! i = None) →
  map_img (chunk_text <$> put_records recs m)
    =@{gset string} list_to_set (chunk_text <$> recs.*2) ∪ map_img (chunk_text <$> m)
  ∧ size (put_records recs m) = length recs + size m.
Proof.
  unfold put_records. revert m.
  induction recs as [|[i r] recs IH]; intros m Hnd Hfree; simpl.
  - split; [by rewrite (left_id_L ∅ (∪)) | done].
  - apply NoDup_cons in Hnd as [Hi Hnd].
    assert (m !! i = None) as Hmi by (apply Hfree, elem_of_cons; by left).
    destruct (IH (<[i:=r]> m) Hnd) as [Himg Hsize].
    { intros j Hj. rewrite lookup_insert_ne by (by intros ->).
      apply Hfree, elem_of_cons. by right. }
    split.
    + rewrite Himg, fmap_insert, map_img_insert_notin_L
        by (by rewrite lookup_fmap, Hmi).
      by rewrite (assoc_L (∪)), (comm_L (∪) (list_to_set _) {[ _ ]}).
    + rewrite Hsize, map_size_insert_None by done. lia.
Qed.

(** Putting a record under an id that is taken replaces the old one: one
    record stays under the id, the later one. *)
Lemma put_records_twice (m : gmap string VectorRecord) (i : string)
    (r r' : VectorRecord) :
  put_records [(i, r')] (put_records [(i, r)] m) = <[i := r']> m.
Proof. unfold put_records. simpl. apply insert_insert_eq. Qed.

(** A record under an id that the batch does not use is left as it is. *)
Lemma put_records_other (recs : list (string * VectorRecord))
    (m : gmap string VectorRecord) (i : string) :
  i ∉ recs.*1 → put_records recs m !! i = m !! i.
Proof.
  unfold put_records. revert m.
  induction recs as [|[j r] recs IH]; intros m Hi; simpl; [done|].
  apply not_elem_of_cons in Hi as [Hne Hi].
  rewrite IH by done. by apply lookup_insert_ne.
Qed.

Section Ingestion.
Context (svc : Services).

Lemma build_records_ids (b : Backend) (t : Z) (docs : list Document)
    (es : list Embedding) :
  ids_distinct svc → NoDup (build_records svc b t docs es).*1.
Proof.
  intros Hid. unfold build_records. apply NoDup_alt.
  intros i j x. rewrite !list_lookup_fmap, !list_lookup_imap.
  destruct (zip docs es !! i) as [[d e]|]; [|done].
  destruct (zip docs es !! j) as [[d' e']|]; [|done].
  simpl. intros [= <-] [= Heq].
  destruct (decide (i = j)) as [|Hne]; [done|].
  by destruct (Hid b t j i d' d (not_eq_sym Hne)).
Qed.

Lemma build_records_texts (b : Backend) (t : Z) (docs : list Document)
    (es : list Embedding) :
  length es = length docs →
  chunk_text <$> (build_records svc b t docs es).*2 = page_content <$> docs.
Proof.
  intros Hlen. unfold build_records.
  rewrite <- list_fmap_compose, fmap_imap.
  rewrite <- (fst_zip docs es) at 2 by lia.
  rewrite <- list_fmap_compose. by rewrite <- imap_const.
Qed.

Lemma build_records_length (b : Backend) (t : Z) (docs : list Document)
    (es : list Embedding) :
  length es = length docs → length (build_records svc b t docs es) = length docs.
Proof.
  intros Hlen. unfold build_records. rewrite length_imap, length_zip. lia.
Qed.

Lemma embed_documents_Ok (texts : list string) (w w1 : World)
    (es : list Embedding) :
  embed_documents svc texts w = (w1, Ok es) →
  length es = length texts ∧ same_stores w w1.
Proof.
  unfold embed_documents. revert w es.
  induction texts as [|x texts IH]; intros w es H; simpl in H.
  - injection H as <- <-. done.
  - apply bind_inv_Ok in H as (w2 & e & Hc & H).
    apply bind_inv_Ok in H as (w3 & es' & Hrest & H).
    injection H as <- <-.
    destruct (IH _ _ Hrest) as [Hlen Hst].
    split; [simpl; by rewrite Hlen|].
    eapply same_stores_trans; [by eapply call_stores|done].
Qed.

(** A successful [from_documents] found the collection and put the batch
    into it; the other backend is untouched. *)
Lemma from_documents_Ok (b : Backend) (docs : list Document) (name : string)
    (w w1 : World) :
  from_documents svc b docs name w = (w1, Ok tt) →
  ∃ c t es,
    store b w !! name = Some c
    ∧ length es = length docs
    ∧ store b w1 =
        <[name := mkCollection (dimension c) (metric c)
                    (put_records (build_records svc b t docs es) (records c))]>
          (store b w)
    ∧ ∀ b', b' ≠ b → store b' w1 = store b' w.
Proof.
  unfold from_documents. intros H.
  apply bind_inv_Ok in H as (w2 & es & Hemb & H).
  apply embed_documents_Ok in Hemb as [Hlen Hst].
  rewrite length_fmap in Hlen.
  apply bind_inv_Ok in H as (w3 & t & Ht & H).
  injection Ht as <- <-.
  unfold on_store, upsert in H.
  rewrite (store_same_stores _ _ _ Hst) in H.
  destruct (store b w !! name) as [c|] eqn:Hc; [|discriminate].
  destruct (forallb _ _); [|discriminate].
  injection H as <-.
  exists c, (clock w2), es. split; [done|]. split; [done|]. split.
  - by rewrite store_set_store.
  - intros b' Hne. rewrite store_set_store_ne by done.
    by apply store_same_stores.
Qed.

Lemma records_of_ext (b : Backend) (name : string) (w w1 : World) :
  store b w1 = store b w → records_of b name w1 = records_of b name w.
Proof. unfold records_of. by intros ->. Qed.

Lemma load_and_split_stores (w w1 : World) (docs : list Document) :
  load_and_split svc w = (w1, Ok docs) → same_stores w w1.
Proof.
  unfold load_and_split. intros H.
  apply bind_inv_Ok in H as (w2 & documents & ?%call_stores & H).
  apply bind_inv_Ok in H as (w3 & docs' & ?%call_stores & H).
  apply bind_inv_Ok in H as (w4 & [] & ?%print_stores & H).
  apply bind_inv_Ok in H as (w5 & [] & ?%print_stores & H).
  apply bind_inv_Ok in H as (w6 & [] & Hsample & H).
  injection H as <- _.
  assert (same_stores w5 w6).
  { destruct docs'; [discriminate|]. by eapply print_stores. }
  repeat (eapply same_stores_trans; [eassumption|]). apply same_stores_refl.
Qed.

Lemma test_embedding_stores (w w1 : World) :
  test_embedding svc w = (w1, Ok tt) → same_stores w w1.
Proof.
  unfold test_embedding. intros H.
  apply bind_inv_Ok in H as (w2 & e & ?%call_stores & H).
  apply bind_inv_Ok in H as (w3 & [] & ?%print_stores & ?%print_stores).
  repeat (eapply same_stores_trans; [eassumption|]). apply same_stores_refl.
Qed.

(** The creation step always returns; afterwards the index exists, with
    the records it had, if any. *)
Lemma create_pinecone_index_keeps (w w1 : World) (r : result unit) :
  create_pinecone_index w = (w1, r) →
  r = Ok tt
  ∧ is_Some (pinecone w1 !! index_name)
  ∧ records_of Pinecone index_name w1 = records_of Pinecone index_name w
  ∧ chroma_db w1 = chroma_db w.
Proof.
  unfold create_pinecone_index, list_indexes, gets, records_of.
  rewrite bind_unfold. simpl.
  destruct (pinecone w !! index_name) as [c|] eqn:E.
  - rewrite bool_decide_eq_true_2 by (apply listed_iff; by exists c).
    simpl. intros [= <- <-]. rewrite E. eauto.
  - rewrite bool_decide_eq_false_2 by (rewrite listed_iff, E; by intros [? ?]).
    simpl. unfold on_store, create_collection. simpl. rewrite E.
    intros [= <- <-]. simpl. rewrite lookup_insert_eq. eauto.
Qed.

(** Step 3 adds the batch to what the index held. *)
Lemma store_pinecone_Ok (docs : list Document) (w w1 : World) :
  store_pinecone svc docs w = (w1, Ok tt) →
  ∃ t es,
    length es = length docs
    ∧ records_of Pinecone index_name w1
      = put_records (build_records svc Pinecone t docs es)
          (records_of Pinecone index_name w)
    ∧ chroma_db w1 = chroma_db w.
Proof.
  unfold store_pinecone. intros H.
  apply bind_inv_Ok in H as (w2 & [] & Hcreate & H).
  apply bind_inv_Ok in H as (w3 & [] & Hfrom & Hprint).
  injection Hprint as <-.
  apply create_pinecone_index_keeps in Hcreate as (_ & _ & Hrec & Hch).
  apply from_documents_Ok in Hfrom as (c & t & es & Hc & Hlen & Hst & Hother).
  exists t, es. split; [done|]. split.
  - rewrite <- Hrec. unfold records_of. simpl in *.
    by rewrite Hst, lookup_insert_eq, Hc.
  - simpl. rewrite <- Hch. by apply (Hother Chroma).
Qed.

(** Step 4 adds the batch to what the local collection held. *)
Lemma store_chroma_Ok (docs : list Document) (w w1 : World) :
  store_chroma svc docs w = (w1, Ok tt) →
  ∃ t es,
    length es = length docs
    ∧ records_of Chroma "book-rag" w1
      = put_records (build_records svc Chroma t docs es)
          (records_of Chroma "book-rag" w)
    ∧ pinecone w1 = pinecone w.
Proof.
  unfold store_chroma. intros H.
  apply bind_inv_Ok in H as (w2 & [] & Hcreate & H).
  apply bind_inv_Ok in H as (w3 & [] & Hfrom & Hprint).
  injection Hprint as <-.
  apply from_documents_Ok in Hfrom as (c & t & es & Hc & Hlen & Hst & Hother).
  exists t, es. split; [done|].
  unfold on_store, create_collection in Hcreate. simpl in Hcreate.
  assert (records c = records_of Chroma "book-rag" w ∧ pinecone w2 = pinecone w)
    as [Hrec Hpin].
  { unfold records_of. simpl.
    destruct (chroma_db w !! "book-rag") as [c0|] eqn:E.
    - destruct (bool_decide _); [|discriminate].
      injection Hcreate as <-. simpl in Hc. split; [congruence|done].
    - injection Hcreate as <-. simpl in Hc.
      rewrite lookup_insert_eq in Hc. by injection Hc as <-. }
  split.
  - unfold records_of at 1. simpl in *.
    by rewrite Hst, lookup_insert_eq, Hrec.
  - simpl. rewrite <- Hpin. by apply (Hother Pinecone).
Qed.

(** A successful ingestion has put one batch built from [docs] into each
    collection, on top of what the collection held. *)
Lemma ingest_Ok (w w' : World) (docs : list Document) :
  ingest svc w = (w', Ok docs) →
  ∃ tp ep tc ec,
    length ep = length docs
    ∧ length ec = length docs
    ∧ records_of Pinecone index_name w'
      = put_records (build_records svc Pinecone tp docs ep)
          (records_of Pinecone index_name w)
    ∧ records_of Chroma "book-rag" w'
      = put_records (build_records svc Chroma tc docs ec)
          (records_of Chroma "book-rag" w).
Proof.
  intros H. unfold ingest in H.
  apply bind_inv_Ok in H as (w1 & docs' & [Hp1 Hc1]%load_and_split_stores & H).
  apply bind_inv_Ok in H as (w2 & [] & [Hp2 Hc2]%test_embedding_stores & H).
  apply bind_inv_Ok in H as (w3 & [] & Hpine & H).
  apply bind_inv_Ok in H as (w4 & [] & Hchroma & H).
  injection H as <- <-.
  apply store_pinecone_Ok in Hpine as (tp & ep & Hlp & Hrp & Hc3).
  apply store_chroma_Ok in Hchroma as (tc & ec & Hlc & Hrc & Hp4).
  exists tp, ep, tc, ec. split; [done|]. split; [done|]. split.
  - rewrite (records_of_ext Pinecone index_name w3 w4) by done.
    rewrite Hrp, (records_of_ext Pinecone index_name w w2); [done|].
    simpl. congruence.
  - rewrite Hrc, (records_of_ext Chroma "book-rag" w w3); [done|].
    simpl. congruence.
Qed.

(** Ingestion removes nothing: a record held before under an id that the
    store does not give to a record of the batch is still held after. *)
Lemma ingest_keeps_other_records (w w' : World) (docs : list Document)
    (b : Backend) (i : string) (r : VectorRecord) :
  ingest svc w = (w', Ok docs) →
  records_of b "book-rag" w !! i = Some r →
  (∀ t k d, record_id svc b t k d ≠ i) →
  records_of b "book-rag" w' !! i = Some r.
Proof.
  intros H Hheld Hother.
  apply ingest_Ok in H as (tp & ep & tc & ec & _ & _ & HP & HC).
  assert (∀ t es, i ∉ (build_records svc b t docs es).*1) as Hnotin.
  { intros t es Hin. unfold build_records in Hin.
    apply list_elem_of_fmap in Hin as ([i' r'] & -> & Hin).
    apply elem_of_lookup_imap in Hin as (k & [d e] & [= Heq _] & _).
    by destruct (Hother t k d). }
  destruct b.
  - change "book-rag" with index_name in *.
    rewrite HP, put_records_other; [done|apply Hnotin].
  - rewrite HC, put_records_other; [done|apply Hnotin].
Qed.

End Ingestion.

(** C10, corrected.  One list [docs] is handed to both stores.  When neither
    collection held a record before and each store gives the records of a
    batch distinct ids, then after a successful ingestion each collection
    holds one record per chunk of [docs], and both hold records for exactly
    the passages of [docs]. *)
Theorem same_passages_after_ingest (svc : Services) (w w' : World)
    (docs : list Document) :
  ids_distinct svc →
  records_of Pinecone index_name w = ∅ →
  records_of Chroma "book-rag" w = ∅ →
  ingest svc w = (w', Ok docs) →
  passages Pinecone index_name w' = list_to_set (page_content <$> docs)
  ∧ passages Chroma "book-rag" w' = list_to_set (page_content <$> docs)
  ∧ size (records_of Pinecone index_name w') = length docs
  ∧ size (records_of Chroma "book-rag" w') = length docs.
Proof.
  intros Hid Hp0 Hc0 H.
  apply ingest_Ok in H as (tp & ep & tc & ec & Hlp & Hlc & HP & HC).
  rewrite Hp0 in HP. rewrite Hc0 in HC.
  unfold passages. rewrite HP, HC.
  destruct (put_records_fresh (build_records svc Pinecone tp docs ep) ∅)
    as [HimgP HsizeP]; [by apply build_records_ids | done |].
  destruct (put_records_fresh (build_records svc Chroma tc docs ec) ∅)
    as [HimgC HsizeC]; [by apply build_records_ids | done |].
  rewrite HimgP, HimgC, HsizeP, HsizeC.
  rewrite !build_records_texts, !build_records_length by done.
  rewrite fmap_empty, map_img_empty_L, (right_id_L ∅ (∪)), map_size_empty.
  split; [done|]. split; [done|]. split; lia.
Qed.

Lemma steady_ids_distinct : ids_distinct steady.
Proof. intros b t i j d d' Hne Heq. apply Hne. by apply (inj pretty). Qed.

(** A first run: nothing exists before, and both collections end up with the
    two passages of the book. *)
Lemma first_run_same_passages :
  (records_of Pinecone index_name blank = ∅
   ∧ records_of Chroma "book-rag" blank = ∅)
  ∧ passages Pinecone index_name (ingest steady blank).1
    = list_to_set
        (page_content <$> [ mkDocument "alpha" "book.pdf" 0;
                            mkDocument "beta" "book.pdf" 0 ])
  ∧ passages Chroma "book-rag" (ingest steady blank).1
    = list_to_set
        (page_content <$> [ mkDocument "alpha" "book.pdf" 0;
                            mkDocument "beta" "book.pdf" 0 ])
  ∧ size (records_of Pinecone index_name (ingest steady blank).1)
    = length [ mkDocument "alpha" "book.pdf" 0; mkDocument "beta" "book.pdf" 0 ]
  ∧ size (records_of Chroma "book-rag" (ingest steady blank).1)
    = length [ mkDocument "alpha" "book.pdf" 0; mkDocument "beta" "book.pdf" 0 ].
Proof.
  split; [split; reflexivity|].
  apply (same_passages_after_ingest steady blank).
  - exact steady_ids_distinct.
  - reflexivity.
  - reflexivity.
  - vm_compute. reflexivity.
Defined.

(** C10 as stated fails: the index [book-rag] exists already and holds a
    record for the passage "gamma"; the creation step leaves it in place,
    ingestion succeeds, and afterwards the managed-cloud collection holds
    three passages where the local one holds two. *)
Lemma stale_index_keeps_its_passage :
  (ingest steady stale_index).2
    = Ok [ mkDocument "alpha" "book.pdf" 0; mkDocument "beta" "book.pdf" 0 ]
  ∧ passages Pinecone index_name (ingest steady stale_index).1
    = {[ "alpha"; "beta"; "gamma" ]}
  ∧ passages Chroma "book-rag" (ingest steady stale_index).1
    = {[ "alpha"; "beta" ]}
  ∧ passages Pinecone index_name (ingest steady stale_index).1
    ≠ passages Chroma "book-rag" (ingest steady stale_index).1.
Proof.
  assert (passages Pinecone index_name (ingest steady stale_index).1
          = {[ "alpha"; "beta"; "gamma" ]}) as HP by (vm_compute; reflexivity).
  assert (passages Chroma "book-rag" (ingest steady stale_index).1
          = {[ "alpha"; "beta" ]}) as HC by (vm_compute; reflexivity).
  split; [vm_compute; reflexivity|]. split; [exact HP|]. split; [exact HC|].
  rewrite HP, HC. intros Heq.
  assert ("gamma" ∈@{gset string} {[ "alpha"; "beta" ]}) as Hin
    by (rewrite <- Heq; set_solver).
  set_solver.
Qed.

(** ** Further properties of the cells *)

Lemma bind_inv {A B : Type} (m : M A) (k : A → M B) (w w' : World)
    (r : result B) :
  (m ≫= k) w = (w', r) →
  (∃ w1 a, m w = (w1, Ok a) ∧ k a w1 = (w', r))
  ∨ (∃ e, m w = (w', Raise e) ∧ r = Raise e).
Proof.
  rewrite bind_unfold. destruct (m w) as [w1 [a|e]]; intros H.
  - left. eauto.
  - right. injection H as <- <-. eauto.
Qed.

Lemma call_stdout {A : Type} (f : Z → Timed A) (w w1 : World) (r : result A) :
  call f w = (w1, r) → stdout w1 = stdout w.
Proof. by intros [= <- _]. Qed.

Lemma on_store_inv (b : Backend) (f : Store → result Store) (w w1 : World)
    (r : result unit) :
  on_store b f w = (w1, r) →
  (∃ st, f (store b w) = Ok st ∧ w1 = set_store b st w ∧ r = Ok tt)
  ∨ (∃ e, f (store b w) = Raise e ∧ w1 = w ∧ r = Raise e).
Proof.
  unfold on_store. destruct (f (store b w)) as [st|e]; intros [= <- <-]; eauto.
Qed.

Lemma stdout_set_store (b : Backend) (st : Store) (w : World) :
  stdout (set_store b st w) = stdout w.
Proof. by destruct b. Qed.

Lemma only_touches_refl (b : Backend) (name : string) (w : World) :
  only_touches b name w w.
Proof. done. Qed.

Lemma only_touches_trans (b : Backend) (name : string) (w w1 w2 : World) :
  only_touches b name w w1 → only_touches b name w1 w2 → only_touches b name w w2.
Proof.
  intros [H1 H2] [H3 H4]. split.
  - intros b' Hb. by rewrite H3, H1.
  - intros n Hn. by rewrite H4, H2.
Qed.

Lemma same_stores_only_touches (b : Backend) (name : string) (w w1 : World) :
  same_stores w w1 → only_touches b name w w1.
Proof.
  intros Hs. split.
  - intros b' _. by apply store_same_stores.
  - intros n _. by rewrite (store_same_stores b w w1).
Qed.

(** A collection operation that leaves other names alone, run against [b],
    touches only that collection. *)
Lemma on_store_only_touches (b : Backend) (name : string)
    (f : Store → result Store) (w w1 : World) (r : result unit) :
  (∀ st st', f st = Ok st' → ∀ n, n ≠ name → st' !! n = st !! n) →
  on_store b f w = (w1, r) → only_touches b name w w1.
Proof.
  intros Hf [(st & Hst & -> & _)|(e & _ & -> & _)]%on_store_inv; [|done].
  split.
  - intros b' Hb. by apply store_set_store_ne.
  - intros n Hn. rewrite store_set_store. by eapply Hf.
Qed.

Lemma create_collection_other (name : string) (d : nat) (m : Metric)
    (st st' : Store) :
  create_collection name d m st = Ok st' → ∀ n, n ≠ name → st' !! n = st !! n.
Proof.
  unfold create_collection. intros H n Hn.
  destruct (st !! name).
  - destruct (bool_decide _); [|discriminate]. by injection H as <-.
  - injection H as <-. by apply lookup_insert_ne.
Qed.

Lemma upsert_other (name : string) (recs : list (string * VectorRecord))
    (st st' : Store) :
  upsert name recs st = Ok st' → ∀ n, n ≠ name → st' !! n = st !! n.
Proof.
  unfold upsert. intros H n Hn.
  destruct (st !! name); [|discriminate].
  destruct (forallb _ _); [|discriminate].
  injection H as <-. by apply lookup_insert_ne.
Qed.

Lemma delete_collection_other (name : string) (st st' : Store) :
  delete_collection name st = Ok st' → ∀ n, n ≠ name → st' !! n = st !! n.
Proof.
  unfold delete_collection. intros H n Hn.
  destruct (st !! name); [|discriminate].
  injection H as <-. by apply lookup_delete_ne.
Qed.

Section Cells.
Context (svc : Services).

(** Embedding a batch prints nothing and leaves the stores alone, whether it
    returns or raises. *)
Lemma embed_documents_frame (texts : list string) (w w1 : World)
    (r : result (list Embedding)) :
  embed_documents svc texts w = (w1, r) →
  same_stores w w1 ∧ stdout w1 = stdout w.
Proof.
  unfold embed_documents. revert w r.
  induction texts as [|x texts IH]; intros w r H; simpl in H.
  - by injection H as <- <-.
  - apply bind_inv in H as [(w2 & e & Hc & H)|(e & Hc & _)].
    + pose proof (call_stores _ _ _ _ Hc) as Hs.
      pose proof (call_stdout _ _ _ _ Hc) as Ho.
      apply bind_inv in H as [(w3 & es & Hrest & H)|(e' & Hrest & _)].
      * injection H as <- _. destruct (IH _ _ Hrest) as [Hs' Ho'].
        split; [by eapply same_stores_trans | congruence].
      * destruct (IH _ _ Hrest) as [Hs' Ho'].
        split; [by eapply same_stores_trans | congruence].
    + split; [by eapply call_stores | by eapply call_stdout].
Qed.

(** [from_documents] prints nothing and touches only its collection; when it
    raises, both stores are as before. *)
Lemma from_documents_frame (b : Backend) (docs : list Document) (name : string)
    (w w1 : World) (r : result unit) :
  from_documents svc b docs name w = (w1, r) →
  stdout w1 = stdout w
  ∧ only_touches b name w w1
  ∧ (∀ e, r = Raise e → same_stores w w1).
Proof.
  unfold from_documents. intros H.
  apply bind_inv in H as [(w2 & es & Hemb & H)|(e & Hemb & ->)].
  - apply embed_documents_frame in Hemb as [Hs Ho].
    apply bind_inv in H as [(w3 & t & Ht & H)|(e & Ht & _)]; [|discriminate].
    injection Ht as <- <-.
    split; [|split].
    + apply on_store_inv in H as [(st & _ & -> & _)|(e & _ & -> & _)];
        [by rewrite stdout_set_store | done].
    + eapply only_touches_trans; [by apply same_stores_only_touches|].
      eapply on_store_only_touches; [|exact H]. apply upsert_other.
    + intros e ->.
      apply on_store_inv in H as [(st & _ & _ & [=])|(e' & _ & -> & _)]. done.
  - apply embed_documents_frame in Hemb as [Hs Ho].
    split; [done|]. split; [by apply same_stores_only_touches | done].
Qed.

(** The creation step returns, prints nothing and touches only the index
    [book-rag]. *)
Lemma create_pinecone_index_frame (w w1 : World) (r : result unit) :
  create_pinecone_index w = (w1, r) →
  r = Ok tt ∧ stdout w1 = stdout w ∧ only_touches Pinecone index_name w w1.
Proof.
  unfold create_pinecone_index, list_indexes, gets. rewrite bind_unfold. simpl.
  destruct (pinecone w !! index_name) as [c|] eqn:E.
  - rewrite bool_decide_eq_true_2 by (apply listed_iff; by exists c).
    simpl. by intros [= <- <-].
  - rewrite bool_decide_eq_false_2 by (rewrite listed_iff, E; by intros [? ?]).
    simpl. unfold on_store, create_collection. simpl. rewrite E.
    intros [= <- <-]. split; [done|]. split; [done|]. split.
    + by intros [] Hb.
    + intros n Hn. simpl. by apply lookup_insert_ne.
Qed.

(** Once the index exists, the creation step does nothing. *)
Lemma create_pinecone_index_existing (w : World) :
  is_Some (pinecone w !! index_name) → create_pinecone_index w = (w, Ok tt).
Proof.
  intros Hsome.
  unfold create_pinecone_index, list_indexes, gets. rewrite bind_unfold. simpl.
  by rewrite bool_decide_eq_true_2 by (by apply listed_iff).
Qed.

(** Step 3, whatever its result: nothing is printed unless it returns, and
    only the index [book-rag] is touched. *)
Lemma store_pinecone_frame (docs : list Document) (w w1 : World)
    (r : result unit) :
  store_pinecone svc docs w = (w1, r) →
  only_touches Pinecone index_name w w1
  ∧ stdout w1 = stdout w ++ match r with
                            | Ok _ => [Populated Pinecone index_name (length docs)]
                            | Raise _ => []
                            end.
Proof.
  unfold store_pinecone. intros H.
  apply bind_inv in H as [(w2 & [] & Hc & H)|(e & Hc & _)].
  - apply create_pinecone_index_frame in Hc as (_ & Ho2 & Ht2).
    apply bind_inv in H as [(w3 & [] & Hf & H)|(e & Hf & ->)].
    + apply from_documents_frame in Hf as (Ho3 & Ht3 & _).
      injection H as <- <-. split.
      * eapply only_touches_trans; [exact Ht2|].
        eapply only_touches_trans; [exact Ht3|]. done.
      * simpl. congruence.
    + apply from_documents_frame in Hf as (Ho3 & Ht3 & _). split.
      * by eapply only_touches_trans.
      * rewrite app_nil_r. congruence.
  - by apply create_pinecone_index_frame in Hc as ([=] & _).
Qed.

(** Step 4, whatever its result. *)
Lemma store_chroma_frame (docs : list Document) (w w1 : World)
    (r : result unit) :
  store_chroma svc docs w = (w1, r) →
  only_touches Chroma "book-rag" w w1
  ∧ stdout w1 = stdout w ++ match r with
                            | Ok _ => [Populated Chroma "book-rag" (length docs)]
                            | Raise _ => []
                            end.
Proof.
  unfold store_chroma. intros H.
  apply bind_inv in H as [(w2 & [] & Hc & H)|(e & Hc & ->)].
  - assert (only_touches Chroma "book-rag" w w2 ∧ stdout w2 = stdout w)
      as [Ht2 Ho2].
    { split.
      - eapply on_store_only_touches; [|exact Hc]. apply create_collection_other.
      - by apply on_store_inv in Hc as [(st & _ & -> & _)|(e & _ & -> & _)]. }
    apply bind_inv in H as [(w3 & [] & Hf & H)|(e & Hf & ->)].
    + apply from_documents_frame in Hf as (Ho3 & Ht3 & _).
      injection H as <- <-. split.
      * eapply only_touches_trans; [exact Ht2|].
        eapply only_touches_trans; [exact Ht3|]. done.
      * simpl. congruence.
    + apply from_documents_frame in Hf as (Ho3 & Ht3 & _). split.
      * by eapply only_touches_trans.
      * rewrite app_nil_r. congruence.
  - apply on_store_inv in Hc as [(st & _ & _ & [=])|(e' & _ & -> & _)].
    split; [done | by rewrite app_nil_r].
Qed.

(** Step 1, whatever its result: the stores are left alone; it returns only
    with at least one chunk, after printing their number and a sample. *)
Lemma load_and_split_inv (w w1 : World) (r : result (list Document)) :
  load_and_split svc w = (w1, r) →
  same_stores w w1
  ∧ match r with
    | Ok docs =>
        ∃ d rest,
          docs = d :: rest
          ∧ stdout w1
            = stdout w ++ [ ChunkCount (length docs); Line "Sample chunk:";
                            SampleChunk
                              (String.substring 0 200 (page_content d) +:+ "...") ]
    | Raise _ =>
        stdout w1 = stdout w
        ∨ stdout w1 = stdout w ++ [ChunkCount 0; Line "Sample chunk:"]
    end.
Proof.
  unfold load_and_split. intros H.
  apply bind_inv in H as [(w2 & documents & Hl & H)|(e & Hl & ->)].
  - pose proof (call_stores _ _ _ _ Hl) as Hs2.
    pose proof (call_stdout _ _ _ _ Hl) as Ho2.
    apply bind_inv in H as [(w3 & docs & Hsp & H)|(e & Hsp & ->)].
    + pose proof (call_stores _ _ _ _ Hsp) as Hs3.
      pose proof (call_stdout _ _ _ _ Hsp) as Ho3.
      assert (same_stores w w3) as Hs by (by eapply same_stores_trans).
      revert H. unfold print, raise. run_binds.
      destruct docs as [|d rest]; simpl.
      * intros [= <- <-]. split; [exact Hs|]. right. simpl.
        rewrite Ho3, Ho2, <- app_assoc. done.
      * intros [= <- <-]. split; [exact Hs|]. exists d, rest. split; [done|].
        simpl. rewrite Ho3, Ho2, <- !app_assoc. done.
    + split; [exact (same_stores_trans _ _ _ Hs2 (call_stores _ _ _ _ Hsp))|].
      left. by rewrite (call_stdout _ _ _ _ Hsp).
  - split; [by eapply call_stores|]. left. by eapply call_stdout.
Qed.

(** Step 2, whatever its result. *)
Lemma test_embedding_inv (w w1 : World) (r : result unit) :
  test_embedding svc w = (w1, r) →
  same_stores w w1
  ∧ match r with
    | Ok _ =>
        ∃ e, stdout w1
             = stdout w ++ [EmbeddingDimension (length e); SampleEmbedding (take 5 e)]
    | Raise _ => stdout w1 = stdout w
    end.
Proof.
  unfold test_embedding. intros H.
  apply bind_inv in H as [(w2 & e & Hc & H)|(e & Hc & ->)].
  - pose proof (call_stores _ _ _ _ Hc) as Hs2.
    pose proof (call_stdout _ _ _ _ Hc) as Ho2.
    revert H. unfold print. run_binds. intros [= <- <-].
    split; [exact Hs2|]. exists e. simpl. rewrite Ho2, <- app_assoc. done.
  - split; [by eapply call_stores | by eapply call_stdout].
Qed.


(** After Step 4 returned, the local collection exists. *)
Lemma store_chroma_exists (docs : list Document) (w w1 : World) :
  store_chroma svc docs w = (w1, Ok tt) → is_Some (chroma_db w1 !! "book-rag").
Proof.
  unfold store_chroma. intros H.
  apply bind_inv_Ok in H as (w2 & [] & _ & H).
  apply bind_inv_Ok in H as (w3 & [] & Hfrom & Hprint).
  injection Hprint as <-.
  apply from_documents_Ok in Hfrom as (c & t & es & _ & _ & Hst & _).
  simpl in *. rewrite Hst, lookup_insert_eq. eauto.
Qed.

(** Collections under other names are as before. *)
Lemma only_touches_others (b : Backend) (w w1 : World) :
  only_touches b "book-rag" w w1 →
  ∀ n, n ≠ "book-rag" →
    pinecone w1 !! n = pinecone w !! n ∧ chroma_db w1 !! n = chroma_db w !! n.
Proof.
  intros [Hb Hn] n Hne. destruct b.
  - split; [by apply Hn|].
    assert (chroma_db w1 = chroma_db w) as -> by (by apply (Hb Chroma)). done.
  - split; [|by apply Hn].
    assert (pinecone w1 = pinecone w) as -> by (by apply (Hb Pinecone)). done.
Qed.

End Cells.

(** Steps 1 to 4, when they all return, print seven lines: the number of
    chunks, the sample header and the sample of the first chunk, the
    dimension and the first values of the test embedding, and one line per
    store, both giving the same number of chunks as the first line; there is
    at least one chunk. *)
Theorem ingest_transcript (svc : Services) (w w' : World) (docs : list Document) :
  ingest svc w = (w', Ok docs) →
  ∃ d rest e,
    docs = d :: rest
    ∧ stdout w'
      = stdout w ++ [ ChunkCount (length docs); Line "Sample chunk:";
                      SampleChunk
                        (String.substring 0 200 (page_content d) +:+ "...");
                      EmbeddingDimension (length e); SampleEmbedding (take 5 e);
                      Populated Pinecone "book-rag" (length docs);
                      Populated Chroma "book-rag" (length docs) ].
Proof.
  unfold ingest. intros H.
  apply bind_inv_Ok in H as (w1 & docs' & H1 & H).
  apply bind_inv_Ok in H as (w2 & [] & H2 & H).
  apply bind_inv_Ok in H as (w3 & [] & H3 & H).
  apply bind_inv_Ok in H as (w4 & [] & H4 & H).
  injection H as <- <-.
  apply load_and_split_inv in H1 as (_ & d & rest & -> & Ho1).
  apply test_embedding_inv in H2 as (_ & e & Ho2).
  apply store_pinecone_frame in H3 as (_ & Ho3).
  apply store_chroma_frame in H4 as (_ & Ho4).
  exists d, rest, e. split; [done|].
  rewrite Ho4, Ho3, Ho2, Ho1, <- !app_assoc. done.
Qed.

Lemma ingest_transcript_steady :
  ∃ d rest e,
    [ mkDocument "alpha" "book.pdf" 0; mkDocument "beta" "book.pdf" 0 ] = d :: rest
    ∧ stdout (ingest steady blank).1
      = stdout blank ++ [ ChunkCount 2; Line "Sample chunk:";
                          SampleChunk
                            (String.substring 0 200 (page_content d) +:+ "...");
                          EmbeddingDimension (length e); SampleEmbedding (take 5 e);
                          Populated Pinecone "book-rag" 2;
                          Populated Chroma "book-rag" 2 ].
Proof.
  apply (ingest_transcript steady blank (ingest steady blank).1
           [ mkDocument "alpha" "book.pdf" 0; mkDocument "beta" "book.pdf" 0 ]).
  vm_compute. reflexivity.
Defined.

(** When the splitter returns no chunk, Step 1 prints the count 0 and the
    sample header and then raises IndexError at [docs[0]]; ingestion ends
    there, with both stores as they were. *)
Theorem ingest_without_chunks (svc : Services) (w : World)
    (documents : list Document) :
  outcome (load svc "book.pdf" (clock w)) = Ok documents →
  outcome (split_documents svc 1000 100 documents
             (clock w + took (load svc "book.pdf" (clock w)))) = Ok [] →
  ∃ w1,
    ingest svc w = (w1, Raise IndexError)
    ∧ same_stores w w1
    ∧ stdout w1 = stdout w ++ [ChunkCount 0; Line "Sample chunk:"].
Proof.
  intros Hload Hsplit.
  unfold ingest, load_and_split, call, print, raise. run_binds.
  rewrite Hload. run_binds. rewrite Hsplit. run_binds.
  eexists. split; [reflexivity|]. split; [done|].
  simpl. by rewrite <- app_assoc.
Qed.

Lemma ingest_without_chunks_no_text :
  ∃ w1,
    ingest no_text blank = (w1, Raise IndexError)
    ∧ same_stores blank w1
    ∧ stdout w1 = stdout blank ++ [ChunkCount 0; Line "Sample chunk:"].
Proof.
  apply (ingest_without_chunks no_text blank []); reflexivity.
Defined.



(** Steps 1 to 4 and the collections under other names. *)
Lemma ingest_others (svc : Services) (w w' : World)
    (r : result (list Document)) :
  ingest svc w = (w', r) →
  ∀ n, n ≠ "book-rag" →
    pinecone w' !! n = pinecone w !! n ∧ chroma_db w' !! n = chroma_db w !! n.
Proof.
  intros H n Hn. unfold ingest in H.
  assert (∀ b w0 w1, only_touches b "book-rag" w0 w1 →
            pinecone w1 !! n = pinecone w0 !! n
            ∧ chroma_db w1 !! n = chroma_db w0 !! n) as Hkeep
    by (intros b w0 w1 Ht; by apply (only_touches_others b)).
  assert (∀ w0 w1, same_stores w0 w1 →
            pinecone w1 !! n = pinecone w0 !! n
            ∧ chroma_db w1 !! n = chroma_db w0 !! n) as Hsame
    by (by intros w0 w1 [-> ->]).
  apply bind_inv in H as [(w1 & docs & H1 & H)|(e & H1 & _)];
    [|by apply load_and_split_inv in H1 as [?%Hsame _]].
  apply load_and_split_inv in H1 as [[Hp1 Hc1]%Hsame _].
  apply bind_inv in H as [(w2 & [] & H2 & H)|(e & H2 & _)];
    [|apply test_embedding_inv in H2 as [[Hp2 Hc2]%Hsame _]; split; congruence].
  apply test_embedding_inv in H2 as [[Hp2 Hc2]%Hsame _].
  apply bind_inv in H as [(w3 & [] & H3 & H)|(e & H3 & _)];
    [|apply store_pinecone_frame in H3 as [[Hp3 Hc3]%Hkeep _]; split; congruence].
  apply store_pinecone_frame in H3 as [[Hp3 Hc3]%Hkeep _].
  apply bind_inv in H as [(w4 & [] & H4 & H)|(e & H4 & _)];
    [|apply store_chroma_frame in H4 as [[Hp4 Hc4]%Hkeep _]; split; congruence].
  apply store_chroma_frame in H4 as [[Hp4 Hc4]%Hkeep _].
  injection H as <- _. split; congruence.
Qed.

(** Steps 1 to 4 never touch an index or a collection under another name,
    whether they return or raise. *)
Theorem ingest_touches_only_book_rag (svc : Services) (w w' : World)
    (r : result (list Document)) (n : string) :
  ingest svc w = (w', r) →
  n ≠ "book-rag" →
  pinecone w' !! n = pinecone w !! n ∧ chroma_db w' !! n = chroma_db w !! n.
Proof. intros H Hn. by apply (ingest_others svc w w' r). Qed.

Lemma ingest_keeps_neighbours :
  pinecone (ingest steady shared_stores).1 !! "other"
    = Some (mkCollection 768 Euclidean ∅)
  ∧ chroma_db (ingest steady shared_stores).1 !! "other" = None.
Proof.
  refine (ingest_touches_only_book_rag steady shared_stores
            (ingest steady shared_stores).1 (ingest steady shared_stores).2
            "other" _ _); [by destruct (ingest steady shared_stores) | done].
Defined.

(** The creation step is idempotent: running it a second time changes
    nothing. *)
Theorem create_pinecone_index_idempotent (w : World) :
  (create_pinecone_index;; create_pinecone_index) w = create_pinecone_index w.
Proof.
  rewrite bind_unfold.
  destruct (create_pinecone_index w) as [w1 r] eqn:H.
  destruct (create_pinecone_index_keeps _ _ _ H) as (-> & Hsome & _).
  by apply create_pinecone_index_existing.
Qed.

(** The Pinecone half of the cleanup cell leaves every other index alone. *)
Lemma cleanup_pinecone_others (w w1 : World) (r : result unit) :
  cleanup_pinecone w = (w1, r) →
  ∀ n, n ≠ index_name → pinecone w1 !! n = pinecone w !! n.
Proof.
  unfold cleanup_pinecone, list_indexes, gets. rewrite bind_unfold. simpl.
  destruct (bool_decide _).
  - rewrite bind_unfold. unfold on_store, delete_collection. simpl.
    destruct (pinecone w !! index_name); intros [= <- _] n Hn; simpl; [|done].
    by apply lookup_delete_ne.
  - by intros [= <- _].
Qed.

(** The two ways the cleanup cell can end. *)
Lemma cleanup_cases (w w1 : World) (r : result unit) :
  cleanup w = (w1, r) →
  pinecone w1 !! index_name = None
  ∧ (∀ n, n ≠ "book-rag" →
       pinecone w1 !! n = pinecone w !! n ∧ chroma_db w1 !! n = chroma_db w !! n)
  ∧ match chroma_db w !! "book-rag" with
    | Some _ => r = Ok tt ∧ chroma_db w1 !! "book-rag" = None
    | None => r = Raise NotFoundError ∧ chroma_db w1 = chroma_db w
    end.
Proof.
  unfold cleanup. intros H.
  destruct (cleanup_pinecone_guarded w) as (w2 & Hp & Hc & Hgone & _).
  pose proof (cleanup_pinecone_others _ _ _ Hp) as Hothers.
  rewrite bind_unfold, Hp in H.
  unfold cleanup_chroma, on_store, delete_collection, print in H.
  rewrite bind_unfold in H. simpl in H. rewrite Hc in H.
  destruct (chroma_db w !! "book-rag") as [c|] eqn:E.
  - injection H as <- <-. simpl. split; [done|]. split.
    + intros n Hn. split; [by apply Hothers|]. by apply lookup_delete_ne.
    + split; [done|]. apply lookup_delete_eq.
  - injection H as <- <-. split; [done|]. split; [|done].
    intros n Hn. split; [by apply Hothers|]. by rewrite Hc.
Qed.

(** The cleanup cell, whatever the stores hold: afterwards no index
    [book-rag] is listed, and every index and collection under another name
    is as before.  It returns exactly when the local collection existed, and
    then that collection is gone too; otherwise it raises NotFoundError and
    the local store is as before. *)
Theorem cleanup_outcome (w w1 : World) (r : result unit) :
  cleanup w = (w1, r) →
  pinecone w1 !! index_name = None
  ∧ (∀ n, n ≠ "book-rag" →
       pinecone w1 !! n = pinecone w !! n ∧ chroma_db w1 !! n = chroma_db w !! n)
  ∧ match chroma_db w !! "book-rag" with
    | Some _ => r = Ok tt ∧ chroma_db w1 !! "book-rag" = None
    | None => r = Raise NotFoundError ∧ chroma_db w1 = chroma_db w
    end.
Proof. apply cleanup_cases. Qed.

Lemma cleanup_outcome_shared :
  pinecone (cleanup (ingest steady shared_stores).1).1 !! index_name = None
  ∧ (∀ n, n ≠ "book-rag" →
       pinecone (cleanup (ingest steady shared_stores).1).1 !! n
         = pinecone (ingest steady shared_stores).1 !! n
       ∧ chroma_db (cleanup (ingest steady shared_stores).1).1 !! n
         = chroma_db (ingest steady shared_stores).1 !! n)
  ∧ (cleanup (ingest steady shared_stores).1).2 = Ok tt
  ∧ chroma_db (cleanup (ingest steady shared_stores).1).1 !! "book-rag" = None.
Proof.
  pose proof (cleanup_outcome (ingest steady shared_stores).1
                (cleanup (ingest steady shared_stores).1).1
                (cleanup (ingest steady shared_stores).1).2) as H.
  destruct H as (H1 & H2 & H3);
    [by destruct (cleanup (ingest steady shared_stores).1)|].
  split; [exact H1|]. split; [exact H2|].
  vm_compute. done.
Defined.

(** Ingestion and cleanup compose: after Steps 1 to 4 returned, the cleanup
    cell returns, and neither store holds a collection [book-rag] any
    more. *)
Theorem cleanup_after_ingest (svc : Services) (w w1 : World)
    (docs : list Document) :
  ingest svc w = (w1, Ok docs) →
  ∃ w2,
    cleanup w1 = (w2, Ok tt)
    ∧ pinecone w2 !! index_name = None
    ∧ chroma_db w2 !! "book-rag" = None.
Proof.
  intros H.
  assert (is_Some (chroma_db w1 !! "book-rag")) as [c Hc].
  { unfold ingest in H.
    apply bind_inv_Ok in H as (w2 & docs' & _ & H).
    apply bind_inv_Ok in H as (w3 & [] & _ & H).
    apply bind_inv_Ok in H as (w4 & [] & _ & H).
    apply bind_inv_Ok in H as (w5 & [] & H5 & H).
    injection H as <- _. by eapply store_chroma_exists. }
  destruct (cleanup_pinecone_guarded w1) as (w2 & Hp & Hsame & Hgone & _).
  unfold cleanup. rewrite bind_unfold, Hp.
  unfold cleanup_chroma, on_store, delete_collection, print.
  rewrite bind_unfold. simpl. rewrite Hsame, Hc.
  eexists. split; [reflexivity|]. simpl. split; [done|]. apply lookup_delete_eq.
Qed.

Lemma cleanup_after_ingest_steady :
  ∃ w2,
    cleanup (ingest steady blank).1 = (w2, Ok tt)
    ∧ pinecone w2 !! index_name = None
    ∧ chroma_db w2 !! "book-rag" = None.
Proof.
  apply (cleanup_after_ingest steady blank (ingest steady blank).1
           [ mkDocument "alpha" "book.pdf" 0; mkDocument "beta" "book.pdf" 0 ]).
  vm_compute. reflexivity.
Defined.

Lemma string_length_app (s1 s2 : string) :
  String.length (s1 +:+ s2) = String.length s1 + String.length s2.
Proof. induction s1 as [|c s1 IH]; simpl; [done | by rewrite IH]. Qed.

Lemma string_length_prefix (n : nat) (s : string) :
  String.length (String.substring 0 n s) ≤ n.
Proof.
  revert s. induction n as [|n IH]; intros [|c s]; simpl; try lia.
  specialize (IH s). lia.
Qed.

(** The sample Step 1 prints is never longer than 203 characters: at most
    200 of the first chunk and the three dots. *)
Theorem sample_chunk_bounded (svc : Services) (w w1 : World)
    (r : result (list Document)) (out : list Output) (s : string) :
  load_and_split svc w = (w1, r) →
  stdout w1 = stdout w ++ out →
  SampleChunk s ∈ out →
  String.length s ≤ 203.
Proof.
  intros H Hout Hin.
  apply load_and_split_inv in H as [_ H].
  destruct r as [docs|e].
  - destruct H as (d & rest & _ & Ho).
    rewrite Ho in Hout. apply app_inv_head in Hout. subst out.
    set_unfold in Hin. destruct Hin as [Hin|[Hin|[Hin|[]]]]; try discriminate.
    injection Hin as ->. rewrite string_length_app. simpl.
    pose proof (string_length_prefix 200 (page_content d)). lia.
  - destruct H as [Ho|Ho]; rewrite Ho in Hout.
    + rewrite <- (app_nil_r (stdout w)) in Hout at 1.
      apply app_inv_head in Hout. subst out. by apply elem_of_nil in Hin.
    + apply app_inv_head in Hout. subst out.
      set_unfold in Hin. destruct Hin as [Hin|[Hin|[]]]; discriminate.
Qed.

Lemma sample_chunk_bounded_steady :
  String.length "alpha..." ≤ 203.
Proof.
  apply (sample_chunk_bounded steady blank (load_and_split steady blank).1
           (load_and_split steady blank).2
           [ChunkCount 2; Line "Sample chunk:"; SampleChunk "alpha..."]).
  - by destruct (load_and_split steady blank).
  - vm_compute. reflexivity.
  - do 2 apply elem_of_cons, or_intror. apply elem_of_cons. by left.
Defined.

Section Loop.
Context (svc : Services).

(** One iteration, whatever its result: the stores are left alone, the query
    is announced once, and an iteration that returns has printed its whole
    block. *)
Lemma compare_query_cases (q : string) (w w1 : World) (r : result unit) :
  compare_query svc q w = (w1, r) →
  same_stores w w1
  ∧ ∃ out,
      stdout w1 = stdout w ++ out
      ∧ asked out = [q]
      ∧ (r = Ok tt → answered_block q out).
Proof.
  intros Hrun.
  destruct (qa_run svc Pinecone q (emit (QueryLine q) w)) as [wp [a|e]] eqn:Hp.
  - destruct (qa_run_frame _ _ _ _ _ _ Hp) as (Hop & Hpp & Hcp).
    simpl in Hop, Hpp, Hcp.
    destruct (qa_run svc Chroma q (after_pinecone (clock w) a wp))
      as [wc [a'|e]] eqn:Hc;
      destruct (qa_run_frame _ _ _ _ _ _ Hc) as (Hoc & Hpc & Hcc);
      simpl in Hoc, Hpc, Hcc.
    + rewrite (compare_query_completes _ _ _ _ _ _ _ Hp Hc) in Hrun.
      injection Hrun as <- <-. split; [split; simpl; congruence|].
      eexists. split; [|split].
      * simpl. rewrite Hoc, Hop, <- !app_assoc. reflexivity.
      * reflexivity.
      * intros _. by eexists _, _, _, _.
    + rewrite (compare_query_chroma_raises _ _ _ _ _ _ _ Hp Hc) in Hrun.
      injection Hrun as <- <-. split; [split; congruence|].
      eexists. split; [|split].
      * rewrite Hoc, Hop, <- !app_assoc. reflexivity.
      * reflexivity.
      * discriminate.
  - destruct (qa_run_frame _ _ _ _ _ _ Hp) as (Hop & Hpp & Hcp).
    simpl in Hop, Hpp, Hcp.
    rewrite (compare_query_pinecone_raises _ _ _ _ _ Hp) in Hrun.
    injection Hrun as <- <-. split; [done|].
    exists [QueryLine q]. split; [done|]. split; [done|discriminate].
Qed.

End Loop.

(** A comparison loop that returns has printed, for each query in the order
    of the list, one block of five lines: the query, then the managed-cloud
    latency and answer, then the local latency and answer; and nothing
    else. *)
Theorem compare_complete_transcript (svc : Services) (qs : list string)
    (w w' : World) :
  compare svc qs w = (w', Ok tt) →
  ∃ blocks,
    stdout w' = stdout w ++ concat blocks
    ∧ Forall2 answered_block qs blocks
    ∧ length (stdout w') = length (stdout w) + 5 * length qs.
Proof.
  unfold compare. revert w.
  induction qs as [|q qs IH]; intros w H; simpl in H.
  - injection H as <-. exists []. simpl. rewrite app_nil_r.
    split; [done|]. split; [constructor|lia].
  - apply bind_inv_Ok in H as (w1 & [] & Hq & H).
    apply compare_query_cases in Hq as (_ & out & Ho & _ & Hblk).
    specialize (Hblk eq_refl).
    destruct (IH _ H) as (blocks & Ho' & Hall & Hlen).
    exists (out :: blocks). split; [|split].
    + simpl. by rewrite Ho', Ho, <- app_assoc.
    + by constructor.
    + rewrite Hlen, Ho, length_app.
      destruct Hblk as (tp & ap & tc & ac & ->). simpl. lia.
Qed.

Lemma compare_complete_transcript_steady :
  ∃ blocks,
    stdout (compare steady queries blank).1 = stdout blank ++ concat blocks
    ∧ Forall2 answered_block queries blocks
    ∧ length (stdout (compare steady queries blank).1)
      = length (stdout blank) + 5 * length queries.
Proof.
  apply (compare_complete_transcript steady queries blank).
  vm_compute. reflexivity.
Defined.

(** The comparison loop, whether it returns or raises, changes neither
    store, and announces the queries in the order of the list without
    skipping one: what it announces is a prefix of the list, and the whole
    list when it returns. *)
Theorem compare_in_order (svc : Services) (qs : list string) (w w' : World)
    (r : result unit) :
  compare svc qs w = (w', r) →
  same_stores w w'
  ∧ ∃ out,
      stdout w' = stdout w ++ out
      ∧ asked out `prefix_of` qs
      ∧ (r = Ok tt → asked out = qs).
Proof.
  unfold compare. revert w.
  induction qs as [|q qs IH]; intros w H; simpl in H.
  - injection H as <- <-. split; [done|]. exists []. rewrite app_nil_r. done.
  - apply bind_inv in H as [(w1 & [] & Hq & H)|(e & Hq & ->)].
    + apply compare_query_cases in Hq as (Hs & out & Ho & Hask & _).
      destruct (IH _ H) as (Hs' & out' & Ho' & Hpre & Hall).
      split; [by eapply same_stores_trans|].
      exists (out ++ out'). unfold asked in *. rewrite omap_app, Hask.
      split; [by rewrite Ho', Ho, app_assoc|]. split.
      * by apply prefix_cons.
      * intros Hr. simpl. f_equal. by apply Hall.
    + apply compare_query_cases in Hq as (Hs & out & Ho & Hask & _).
      split; [done|]. exists out. split; [done|]. rewrite Hask. split.
      * apply prefix_cons, prefix_nil.
      * discriminate.
Qed.

Lemma compare_in_order_local_down :
  same_stores blank (compare local_down queries blank).1
  ∧ ∃ out,
      stdout (compare local_down queries blank).1 = stdout blank ++ out
      ∧ asked out `prefix_of` queries
      ∧ ((compare local_down queries blank).2 = Ok tt → asked out = queries).
Proof.
  apply (compare_in_order local_down queries blank).
  by destruct (compare local_down queries blank).
Defined.

(** When no call of a chain takes negative time, no latency printed by the
    comparison loop is negative. *)
Theorem latency_nonneg (svc : Services) (qs : list string) (w w' : World)
    (r : result unit) (out : list Output) (b : Backend) (t : Z) :
  nonneg_durations svc →
  compare svc qs w = (w', r) →
  stdout w' = stdout w ++ out →
  ResponseTime b t ∈ out →
  (0 ≤ t)%Z.
Proof.
  intros (Hembed & Hsearch & Hanswer) Hrun Hout Hin.
  destruct (compare_output svc qs w w' r Hrun) as (out' & Hout' & Hall).
  rewrite Hout' in Hout. apply app_inv_head in Hout. subst out'.
  destruct (Hall _ _ Hin)
    as (q & w0 & d1 & d2 & d3 & a & _ & (e & ps & E1 & E2 & E3) & -> & _).
  pose proof (Hembed q (clock w0)) as H1. rewrite E1 in H1.
  pose proof (Hsearch b (store b w0 !! "book-rag") e 3 (clock w0 + d1)%Z) as H2.
  rewrite E2 in H2.
  pose proof (Hanswer q ps (clock w0 + d1 + d2)%Z) as H3. rewrite E3 in H3.
  simpl in *. lia.
Qed.

Lemma steady_nonneg_durations : nonneg_durations steady.
Proof. repeat split; intros; simpl; lia. Qed.

Lemma latency_nonneg_steady : (0 ≤ 45)%Z.
Proof.
  apply (latency_nonneg steady (take 1 queries) blank
           (compare steady (take 1 queries) blank).1
           (compare steady (take 1 queries) blank).2
           [ QueryLine "What is the main topic of the book?";
             ResponseTime Pinecone 45;
             ResponseText Pinecone "It is about alpha and beta.";
             ResponseTime Chroma 45;
             ResponseText Chroma "It is about alpha and beta." ]
           Pinecone 45).
  - exact steady_nonneg_durations.
  - by destruct (compare steady (take 1 queries) blank).
  - vm_compute. reflexivity.
  - apply elem_of_cons, or_intror, elem_of_cons. by left.
Defined.

(** ** The notebook as a whole *)

Section Whole.
Context (svc : Services).

(** After Step 3 returned, the index exists. *)
Lemma store_pinecone_exists (docs : list Document) (w w1 : World) :
  store_pinecone svc docs w = (w1, Ok tt) → is_Some (pinecone w1 !! index_name).
Proof.
  unfold store_pinecone. intros H.
  apply bind_inv_Ok in H as (w2 & [] & _ & H).
  apply bind_inv_Ok in H as (w3 & [] & Hfrom & Hprint).
  injection Hprint as <-.
  apply from_documents_Ok in Hfrom as (c & t & es & _ & _ & Hst & _).
  simpl in *. rewrite Hst, lookup_insert_eq. eauto.
Qed.

(** After Steps 1 to 4 returned, both collections exist. *)
Lemma ingest_exists (w w1 : World) (docs : list Document) :
  ingest svc w = (w1, Ok docs) →
  is_Some (pinecone w1 !! index_name) ∧ is_Some (chroma_db w1 !! "book-rag").
Proof.
  unfold ingest. intros H.
  apply bind_inv_Ok in H as (w2 & docs' & _ & H).
  apply bind_inv_Ok in H as (w3 & [] & _ & H).
  apply bind_inv_Ok in H as (w4 & [] & H4 & H).
  apply bind_inv_Ok in H as (w5 & [] & H5 & H).
  injection H as <- _. split; [|by eapply store_chroma_exists].
  apply store_pinecone_exists in H4.
  apply store_chroma_frame in H5 as [[Hb _] _].
  assert (pinecone w5 = pinecone w4) as -> by (by apply (Hb Pinecone)). done.
Qed.

(** The comparison loop changes neither store. *)
Lemma compare_stores (qs : list string) (w w' : World) (r : result unit) :
  compare svc qs w = (w', r) → same_stores w w'.
Proof.
  unfold compare. revert w.
  induction qs as [|q qs IH]; intros w H; simpl in H.
  - by injection H as <- _.
  - apply bind_inv in H as [(w1 & [] & Hq & H)|(e & Hq & _)].
    + apply compare_query_cases in Hq as [Hs _].
      eapply same_stores_trans; [exact Hs | by apply IH].
    + by apply compare_query_cases in Hq as [Hs _].
Qed.

End Whole.

(** Running all cells in order: indexes and collections under other names
    are never touched; and when the run returns, neither store holds a
    collection [book-rag] any more. *)
Theorem notebook_lifecycle (svc : Services) (w w' : World) (r : result unit) :
  notebook svc w = (w', r) →
  (∀ n, n ≠ "book-rag" →
     pinecone w' !! n = pinecone w !! n ∧ chroma_db w' !! n = chroma_db w !! n)
  ∧ (r = Ok tt →
     pinecone w' !! index_name = None ∧ chroma_db w' !! "book-rag" = None).
Proof.
  unfold notebook. intros H.
  apply bind_inv in H as [(w1 & docs & H1 & H)|(e & H1 & ->)];
    [|split; [by eapply ingest_others | discriminate]].
  pose proof (ingest_others _ _ _ _ H1) as Ho1.
  apply bind_inv in H as [(w2 & [] & H2 & H)|(e & H2 & _)]; [|discriminate].
  injection H2 as <-.
  apply bind_inv in H as [(w3 & [] & H3 & H)|(e & H3 & ->)].
  - apply compare_stores in H3 as [Hp3 Hc3]. simpl in Hp3, Hc3.
    apply cleanup_cases in H as (Hgone & Ho4 & Hlocal).
    split.
    + intros n Hn. destruct (Ho4 n Hn) as [-> ->].
      rewrite Hp3, Hc3. by apply Ho1.
    + intros ->. split; [done|].
      destruct (chroma_db w3 !! "book-rag"); by destruct Hlocal.
  - apply compare_stores in H3 as [Hp3 Hc3]. simpl in Hp3, Hc3.
    split; [|discriminate].
    intros n Hn. rewrite Hp3, Hc3. by apply Ho1.
Qed.

Lemma notebook_lifecycle_shared :
  (∀ n, n ≠ "book-rag" →
     pinecone (notebook steady shared_stores).1 !! n = pinecone shared_stores !! n
     ∧ chroma_db (notebook steady shared_stores).1 !! n
       = chroma_db shared_stores !! n)
  ∧ ((notebook steady shared_stores).2 = Ok tt →
     pinecone (notebook steady shared_stores).1 !! index_name = None
     ∧ chroma_db (notebook steady shared_stores).1 !! "book-rag" = None).
Proof.
  apply (notebook_lifecycle steady shared_stores).
  by destruct (notebook steady shared_stores).
Defined.

(** Nothing is cleaned up after a failure: when Steps 1 to 4 returned and
    the comparison loop raises, the run ends in that error with the cleanup
    cell not run, and both collections stay as ingestion left them. *)
Theorem notebook_skips_cleanup (svc : Services) (w w1 w2 : World)
    (docs : list Document) (e : Error) :
  ingest svc w = (w1, Ok docs) →
  compare svc queries
    (emit (Line "RAG pipelines initialized for Pinecone and ChromaDB.") w1)
    = (w2, Raise e) →
  notebook svc w = (w2, Raise e)
  ∧ same_stores w1 w2
  ∧ is_Some (pinecone w2 !! index_name)
  ∧ is_Some (chroma_db w2 !! "book-rag").
Proof.
  intros H1 H3.
  destruct (ingest_exists _ _ _ _ H1) as [Hp Hc].
  pose proof (compare_stores _ _ _ _ _ H3) as [Hp3 Hc3]. simpl in Hp3, Hc3.
  split; [|split; [done|]].
  - unfold notebook, setup_pipelines, print.
    rewrite bind_unfold, H1. run_binds. by rewrite H3.
  - by rewrite Hp3, Hc3.
Qed.

Lemma notebook_skips_cleanup_local_down :
  ∃ w2,
    notebook local_down blank = (w2, Raise StorageError)
    ∧ is_Some (pinecone w2 !! index_name)
    ∧ is_Some (chroma_db w2 !! "book-rag").
Proof.
  pose (w1 := (ingest local_down blank).1).
  pose (w2 := (compare local_down queries
                 (emit (Line "RAG pipelines initialized for Pinecone and ChromaDB.")
                    w1)).1).
  destruct (notebook_skips_cleanup local_down blank w1 w2
              [ mkDocument "alpha" "book.pdf" 0; mkDocument "beta" "book.pdf" 0 ]
              StorageError) as (Hrun & _ & Hp & Hc).
  - vm_compute. reflexivity.
  - vm_compute. reflexivity.
  - exists w2. split; [exact Hrun|]. split; [exact Hp | exact Hc].
Defined.


